(** * advanced_sunbeam_openstack: the charm reconciliation engine

    A shallow embedding of
    - [advanced_sunbeam_openstack/charm.py]: [OSBaseOperatorCharm] and
      [OSBaseOperatorAPICharm] (handler construction, [configure_charm],
      [contexts], the [bootstrapped] flag, [leader_set]/[leader_get]);
    - [lib/charms/sunbeam_mysql_k8s/v0/shared_db.py]: [SharedDBRequires].

    Python objects are records, dictionaries are [gmap]s, an exception is a
    [Raise] in the result type, and the side effects of a pass (calls to
    [init_service], to the bootstrap hook, writes of the unit status) are
    recorded in a trace of events. *)

From stdpp Require Import gmap strings list pretty.
From Stdlib Require Import ZArith Ascii.

Open Scope string_scope.
Open Scope list_scope.

(** ** Exceptions and results *)

Inductive exn :=
| AttributeError (attr : string)
| KeyError (key : string)
| TypeError (msg : string)
| NotImplementedError
| RelationDataError
| Exception (msg : string).

Inductive result (A : Type) :=
| Ok (a : A)
| Raise (e : exn).
Arguments Ok {A} a.
Arguments Raise {A} e.

(** Sequencing: an exception skips the rest ([x ← r; k] below). *)
#[global] Instance result_ret : MRet result := λ A a, Ok a.
#[global] Instance result_bind : MBind result := λ A B k r,
  match r with
  | Ok a => k a
  | Raise e => Raise e
  end.

(** Python's [a or b] on strings: the empty string and [None] are falsy. *)
Definition str_or (a : option string) (b : string) : string :=
  match a with
  | Some s => if bool_decide (s = EmptyString) then b else s
  | None => b
  end.

(** Python's [handlers or []] on an optional list. *)
Definition list_or_nil {A} (l : option (list A)) : list A :=
  match l with
  | Some (x :: xs) => x :: xs
  | _ => []
  end.

(** ** The charm as declared by a concrete subclass *)

Inductive CharmClass := OSBaseOperatorCharm | OSBaseOperatorAPICharm.

(** The attributes the base classes read and a concrete charm provides:
    [service_name], the metadata ([self.meta.relations], relation name to
    interface name), the charm configuration, the release, and the
    [default_public_ingress_port] property when it is overridden. *)
Record CharmDef := {
  charm_class : CharmClass;
  service_name : string;
  meta_relations : gmap string string;
  config : gmap string string;
  openstack_release : string;
  ingress_port_override : option Z;
}.

(** [self.default_public_ingress_port]: the API class raises
    [NotImplementedError] (charm.py, l. 329-331); the base class does not
    define the attribute at all. *)
Definition default_public_ingress_port (self : CharmDef) : result Z :=
  match ingress_port_override self with
  | Some p => Ok p
  | None =>
      match charm_class self with
      | OSBaseOperatorCharm => Raise (AttributeError "default_public_ingress_port")
      | OSBaseOperatorAPICharm => Raise NotImplementedError
      end
  end.


(** [self.service_endpoints] (charm.py, l. 238-240). *)
Definition service_endpoints (self : CharmDef) : list string := [].

(** ** Relation handlers *)

(** A constructed relation handler, with the arguments of its constructor
    (the charm and the [configure_charm] callback are the same for all). *)
Inductive RelationHandler :=
| AMQPHandler (relation_name username vhost : string)
| DBHandler (relation_name : string)
| SharedDBHandler (relation_name : string) (databases : list string)
| IngressHandler (relation_name service : string) (port : Z)
| BasePeerHandler (relation_name : string)
| IdentityServiceRequiresHandler (relation_name : string)
    (endpoints : list string) (region : string).

Definition relation_name (h : RelationHandler) : string :=
  match h with
  | AMQPHandler n _ _ => n
  | DBHandler n => n
  | SharedDBHandler n _ => n
  | IngressHandler n _ _ => n
  | BasePeerHandler n => n
  | IdentityServiceRequiresHandler n _ _ => n
  end.

(** The attributes [self.amqp], [self.db], [self.ingress], [self.peers] and
    [self.id_svc], which exist only once the handler has been added. *)
Record HandlerAttrs := {
  amqp : option RelationHandler;
  db : option RelationHandler;
  ingress : option RelationHandler;
  peers : option RelationHandler;
  id_svc : option RelationHandler;
}.

Definition no_attrs : HandlerAttrs :=
  {| amqp := None; db := None; ingress := None; peers := None; id_svc := None |}.

Definition set_amqp (h : RelationHandler) (a : HandlerAttrs) : HandlerAttrs :=
  {| amqp := Some h; db := db a; ingress := ingress a; peers := peers a;
     id_svc := id_svc a |}.
Definition set_db (h : RelationHandler) (a : HandlerAttrs) : HandlerAttrs :=
  {| amqp := amqp a; db := Some h; ingress := ingress a; peers := peers a;
     id_svc := id_svc a |}.
Definition set_ingress (h : RelationHandler) (a : HandlerAttrs) : HandlerAttrs :=
  {| amqp := amqp a; db := db a; ingress := Some h; peers := peers a;
     id_svc := id_svc a |}.
Definition set_peers (h : RelationHandler) (a : HandlerAttrs) : HandlerAttrs :=
  {| amqp := amqp a; db := db a; ingress := ingress a; peers := Some h;
     id_svc := id_svc a |}.
Definition set_id_svc (h : RelationHandler) (a : HandlerAttrs) : HandlerAttrs :=
  {| amqp := amqp a; db := db a; ingress := ingress a; peers := peers a;
     id_svc := Some h |}.

(** charm.py, l. 62-73. *)
Definition can_add_handler (self : CharmDef) (name : string)
    (handlers : list RelationHandler) : bool :=
  if negb (bool_decide (name ∈ dom (meta_relations self))) then false
  else if bool_decide (name ∈ relation_name <$> handlers) then false
  else true.

(** The list under construction together with the attributes set so far. *)
Definition Building : Type := list RelationHandler * HandlerAttrs.

Definition add_handler (set : RelationHandler → HandlerAttrs → HandlerAttrs)
    (h : RelationHandler) (b : Building) : Building :=
  (b.1 ++ [h], set h b.2).

(** [OSBaseOperatorCharm.get_relation_handlers] (charm.py, l. 75-115). *)
Definition base_get_relation_handlers (self : CharmDef)
    (handlers : option (list RelationHandler)) (attrs : HandlerAttrs)
    : result Building :=
  let b0 : Building := (list_or_nil handlers, attrs) in
  let b1 :=
    if can_add_handler self "amqp" b0.1 then
      add_handler set_amqp
        (AMQPHandler "amqp"
           (str_or (config self !! "rabbitmq-user") (service_name self))
           (str_or (config self !! "rabbitmq-vhost") "openstack")) b0
    else b0 in
  let db_svc := service_name self +:+ "-db" in
  let b2 :=
    if can_add_handler self db_svc b1.1 then
      add_handler set_db (DBHandler db_svc) b1
    else b1 in
  let b3 :=
    if can_add_handler self "shared-db" b2.1 then
      add_handler set_db (SharedDBHandler "shared-db" [service_name self]) b2
    else b2 in
  b4 ← (if can_add_handler self "ingress" b3.1 then
          port ← default_public_ingress_port self ;
          Ok (add_handler set_ingress
                (IngressHandler "ingress" (service_name self) port) b3)
        else Ok b3) ;
  let b5 :=
    if can_add_handler self "peers" b4.1 then
      add_handler set_peers (BasePeerHandler "peers") b4
    else b4 in
  Ok b5.

(** [OSBaseOperatorAPICharm.get_relation_handlers] (charm.py, l. 242-255). *)
Definition api_get_relation_handlers (self : CharmDef)
    (handlers : option (list RelationHandler)) (attrs : HandlerAttrs)
    : result Building :=
  let b0 : Building := (list_or_nil handlers, attrs) in
  b1 ← (if can_add_handler self "identity-service" b0.1 then
          region ← match config self !! "region" with
                   | Some r => Ok r
                   | None => Raise (KeyError "region")
                   end ;
          Ok (add_handler set_id_svc
                (IdentityServiceRequiresHandler "identity-service"
                   (service_endpoints self) region) b0)
        else Ok b0) ;
  base_get_relation_handlers self (Some b1.1) b1.2.

(** Method dispatch on the class of the charm. *)
Definition get_relation_handlers (self : CharmDef)
    (handlers : option (list RelationHandler)) (attrs : HandlerAttrs)
    : result Building :=
  match charm_class self with
  | OSBaseOperatorCharm => base_get_relation_handlers self handlers attrs
  | OSBaseOperatorAPICharm => api_get_relation_handlers self handlers attrs
  end.

(** ** Containers and configuration contexts *)

(** [sunbeam_core.ContainerConfigFile(container_names, path, user, group)]. *)
Record ContainerConfigFile := {
  ccf_container_names : list string;
  ccf_path : string;
  ccf_user : string;
  ccf_group : string;
}.

(** A constructed configuration adapter, with its namespace. *)
Inductive ConfigContext :=
| CharmConfigContext (namespace : string)
| WSGIWorkerConfigContext (namespace : string).

Definition template_dir (self : CharmDef) : string := "src/templates".
Definition service_user (self : CharmDef) : string := service_name self.
Definition service_group (self : CharmDef) : string := service_name self.
Definition wsgi_container_name (self : CharmDef) : string := service_name self.
Definition container_names (self : CharmDef) : list string := [service_name self].

(** [str.replace(old, new)] for one-character [old] and [new]. *)
Fixpoint replace_char (old new : Ascii.ascii) (s : string) : string :=
  match s with
  | EmptyString => EmptyString
  | String a rest =>
      String (if Ascii.eqb a old then new else a) (replace_char old new rest)
  end.

(** charm.py, l. 162-165. *)
Definition handler_prefix (self : CharmDef) : string :=
  replace_char "-"%char "_"%char (service_name self).
Definition service_conf (self : CharmDef) : string :=
  "/etc/" +:+ service_name self +:+ "/" +:+ service_name self +:+ ".conf".

(** charm.py, l. 150-153 and 286-296. *)
Definition container_configs (self : CharmDef) : list ContainerConfigFile :=
  match charm_class self with
  | OSBaseOperatorCharm => []
  | OSBaseOperatorAPICharm =>
      [] ++ [ {| ccf_container_names := [wsgi_container_name self];
                 ccf_path := service_conf self;
                 ccf_user := service_user self;
                 ccf_group := service_group self |} ]
  end.

(** charm.py, l. 155-160 and 313-321. *)
Definition config_contexts (self : CharmDef) : list ConfigContext :=
  match charm_class self with
  | OSBaseOperatorCharm => [CharmConfigContext "options"]
  | OSBaseOperatorAPICharm =>
      [CharmConfigContext "options"] ++ [WSGIWorkerConfigContext "wsgi_config"]
  end.

(** Unit statuses of [ops.model]. *)
Inductive Status := MaintenanceStatus | ActiveStatus | BlockedStatus | WaitingStatus.

(** ** The collaborators of the engine

    The relation handlers, the pebble handlers and the context container
    live in modules the charm only calls ([relation_handlers],
    [container_handlers], [core]); the engine sees them through this
    interface.  [World] is the externally observed state the relation
    handlers read (relation data) and the bootstrap hook acts on; a pebble
    handler is an object with a state of its own, which [init_service]
    changes. *)
Class Collaborators := {
  World : Type;
  Ctx : Type;
  PebbleHandler : Type;
  (** [handler.ready] *)
  ready : World → RelationHandler → bool;
  (** [sunbeam_core.OPSCharmContexts(self)] *)
  OPSCharmContexts : CharmDef → Ctx;
  (** [ra.add_relation_handler(handler)] *)
  add_relation_handler : World → RelationHandler → Ctx → Ctx;
  (** [ra.add_config_contexts(self.config_contexts)] *)
  add_config_contexts : CharmDef → list ConfigContext → Ctx → Ctx;
  (** [sunbeam_chandlers.PebbleHandler(self, container, service, configs,
      template_dir, release, callback)] *)
  new_PebbleHandler :
    string → string → list ContainerConfigFile → string → string → PebbleHandler;
  (** [sunbeam_chandlers.WSGIPebbleHandler(..., wsgi_service_name)] *)
  new_WSGIPebbleHandler :
    string → string → list ContainerConfigFile → string → string → string
    → PebbleHandler;
  (** [ph.pebble_ready], [ph.service_ready], [ph.init_service(context)] *)
  pebble_ready : PebbleHandler → bool;
  service_ready : PebbleHandler → bool;
  init_service : Ctx → PebbleHandler → PebbleHandler;
  (** [self._do_bootstrap()] as overridden by the concrete charm: the new
      world, and the exception it raised if any. *)
  _do_bootstrap : World → World * option exn;
}.

(** [StoredState.set_default]: only sets attributes that have no value yet. *)
Definition set_default (key : string) (v : bool) (st : gmap string bool)
    : gmap string bool :=
  match st !! key with
  | Some _ => st
  | None => <[key := v]> st
  end.

Section Engine.
Context `{Collab : Collaborators}.

(** The charm object, with the stored state [self._state], the unit status
    and the state of the peer relation's application data bag. *)
Record Charm := {
  charm_def : CharmDef;
  relation_handlers : list RelationHandler;
  handler_attrs : HandlerAttrs;
  pebble_handlers : list PebbleHandler;
  _state : gmap string bool;
  unit_status : Status;
  world : World;
  is_leader : bool;
  peer_app_data : gmap string string;
}.

Definition with_pebble_handlers (phs : list PebbleHandler) (c : Charm) : Charm :=
  {| charm_def := charm_def c; relation_handlers := relation_handlers c;
     handler_attrs := handler_attrs c; pebble_handlers := phs;
     _state := _state c; unit_status := unit_status c; world := world c;
     is_leader := is_leader c; peer_app_data := peer_app_data c |}.
Definition with_relation_handlers (hs : list RelationHandler) (c : Charm) : Charm :=
  {| charm_def := charm_def c; relation_handlers := hs;
     handler_attrs := handler_attrs c; pebble_handlers := pebble_handlers c;
     _state := _state c; unit_status := unit_status c; world := world c;
     is_leader := is_leader c; peer_app_data := peer_app_data c |}.
Definition with_world (w : World) (c : Charm) : Charm :=
  {| charm_def := charm_def c; relation_handlers := relation_handlers c;
     handler_attrs := handler_attrs c; pebble_handlers := pebble_handlers c;
     _state := _state c; unit_status := unit_status c; world := w;
     is_leader := is_leader c; peer_app_data := peer_app_data c |}.
Definition with_status (s : Status) (c : Charm) : Charm :=
  {| charm_def := charm_def c; relation_handlers := relation_handlers c;
     handler_attrs := handler_attrs c; pebble_handlers := pebble_handlers c;
     _state := _state c; unit_status := s; world := world c;
     is_leader := is_leader c; peer_app_data := peer_app_data c |}.
Definition with_state (st : gmap string bool) (c : Charm) : Charm :=
  {| charm_def := charm_def c; relation_handlers := relation_handlers c;
     handler_attrs := handler_attrs c; pebble_handlers := pebble_handlers c;
     _state := st; unit_status := unit_status c; world := world c;
     is_leader := is_leader c; peer_app_data := peer_app_data c |}.
Definition with_peer_app_data (d : gmap string string) (c : Charm) : Charm :=
  {| charm_def := charm_def c; relation_handlers := relation_handlers c;
     handler_attrs := handler_attrs c; pebble_handlers := pebble_handlers c;
     _state := _state c; unit_status := unit_status c; world := world c;
     is_leader := is_leader c; peer_app_data := d |}.

(** What a pass does to the outside, in order; [EFailed] marks a dispatch
    that ended with an uncaught exception. *)
Inductive Event :=
| EInitService (ph : PebbleHandler) (ctx : Ctx)
| EBootstrap (raised : option exn)
| ESetStatus (s : Status)
| EFailed (e : exn).

(** charm.py, l. 117-127 and 273-284. *)
Definition get_pebble_handlers (self : CharmDef) : list PebbleHandler :=
  match charm_class self with
  | OSBaseOperatorCharm =>
      [new_PebbleHandler (service_name self) (service_name self)
         (container_configs self) (template_dir self) (openstack_release self)]
  | OSBaseOperatorAPICharm =>
      [new_WSGIPebbleHandler (service_name self) (service_name self)
         (container_configs self) (template_dir self) (openstack_release self)
         ("wsgi-" +:+ service_name self)]
  end.

(** [__init__] (charm.py, l. 54-60 and 234-236).  [stored] is what the
    framework has persisted of [_state] so far (empty on a fresh unit). *)
Definition __init__ (self : CharmDef) (stored : gmap string bool)
    (status : Status) (w : World) (leader : bool)
    (peer_data : gmap string string) : result Charm :=
  let st := set_default "bootstrapped" false stored in
  b ← get_relation_handlers self None no_attrs;
  let phs := get_pebble_handlers self in
  let st' :=
    match charm_class self with
    | OSBaseOperatorCharm => st
    | OSBaseOperatorAPICharm => set_default "db_ready" false st
    end in
  Ok {| charm_def := self; relation_handlers := b.1; handler_attrs := b.2;
        pebble_handlers := phs; _state := st'; unit_status := status;
        world := w; is_leader := leader; peer_app_data := peer_data |}.

(** charm.py, l. 188-194. *)
Fixpoint handlers_ready (w : World) (hs : list RelationHandler) : bool :=
  match hs with
  | [] => true
  | handler :: rest => if negb (ready w handler) then false else handlers_ready w rest
  end.

Definition relation_handlers_ready (self : Charm) : bool :=
  handlers_ready (world self) (relation_handlers self).

(** charm.py, l. 180-186; [configure_charm] runs the same loop inline
    (l. 139-142). *)
Fixpoint services_ready (phs : list PebbleHandler) : bool :=
  match phs with
  | [] => true
  | ph :: rest => if negb (service_ready ph) then false else services_ready rest
  end.

Definition containers_ready (self : Charm) : bool :=
  services_ready (pebble_handlers self).

(** charm.py, l. 196-208: the loop over [self.relation_handlers]. *)
Fixpoint add_ready_handlers (self : CharmDef) (w : World)
    (hs : list RelationHandler) (ra : Ctx) : Ctx :=
  match hs with
  | [] => ra
  | handler :: rest =>
      if negb (bool_decide (relation_name handler ∈ dom (meta_relations self)))
      then add_ready_handlers self w rest ra
      else if ready w handler
      then add_ready_handlers self w rest (add_relation_handler w handler ra)
      else add_ready_handlers self w rest ra
  end.

Definition contexts (self : Charm) : Ctx :=
  let ra := OPSCharmContexts (charm_def self) in
  let ra := add_ready_handlers (charm_def self) (world self)
              (relation_handlers self) ra in
  add_config_contexts (charm_def self) (config_contexts (charm_def self)) ra.

(** charm.py, l. 218-220: reading an attribute the stored state does not
    hold raises [AttributeError]. *)
Definition bootstrapped (self : Charm) : result bool :=
  match _state self !! "bootstrapped" with
  | Some b => Ok b
  | None => Raise (AttributeError "bootstrapped")
  end.

(** What a call leaves behind: the exception that came out of it, if any,
    the charm afterwards and the events it caused. *)
Definition Pass : Type := option exn * Charm * list Event.

(** charm.py, l. 135-137: the first loop of [configure_charm].  The context
    is built anew for each handler; it does not depend on the pebble
    handlers, so the charm the loop started with gives it. *)
Definition init_one (self : Charm) (ph : PebbleHandler)
    : PebbleHandler * list Event :=
  if pebble_ready ph
  then (init_service (contexts self) ph, [EInitService ph (contexts self)])
  else (ph, []).

Fixpoint init_services (self : Charm) (phs : list PebbleHandler)
    : list PebbleHandler * list Event :=
  match phs with
  | [] => ([], [])
  | ph :: rest =>
      let (ph', t) := init_one self ph in
      let (rest', t') := init_services self rest in
      (ph' :: rest', t ++ t')
  end.

(** [configure_charm] (charm.py, l. 129-148). *)
Definition configure_charm (self : Charm) : Pass :=
  if negb (relation_handlers_ready self) then (None, self, [])
  else
    let (phs, t1) := init_services self (pebble_handlers self) in
    let self1 := with_pebble_handlers phs self in
    if negb (services_ready (pebble_handlers self1)) then (None, self1, t1)
    else
      match bootstrapped self1 with
      | Raise e => (Some e, self1, t1)
      | Ok b =>
          let '(raised, self2, t2) :=
            if negb b then
              let (w, r) := _do_bootstrap (world self1) in
              (r, with_world w self1, [EBootstrap r])
            else (None, self1, []) in
          match raised with
          | Some e => (Some e, self2, t1 ++ t2)
          | None =>
              let self3 := with_status ActiveStatus self2 in
              let self4 := with_state (<["bootstrapped" := true]> (_state self3)) self3 in
              (None, self4, t1 ++ t2 ++ [ESetStatus ActiveStatus])
          end
      end.

(** charm.py, l. 177-178. *)
Definition _on_config_changed (self : Charm) : Pass := configure_charm self.

(** *** Peer data *)

(** What a write to the application data bag does on a unit that is not the
    leader: [None] when it is silently ignored, [Some e] when it is refused
    with [e]. *)
Variable nonleader_write : option exn.

(** Modelled from the spec: [BasePeerHandler.set_app_data] and
    [BasePeerHandler.get_app_data] belong to the [relation_handlers] module,
    which is not among the sources.  The spec (PeerData, Scenario D): a
    key to string mapping shared through the peer relation; only the elected
    leader may write, a write by another unit is rejected or is a no-op;
    every unit may read. *)
Definition set_app_data (leader : bool) (key value : string)
    (data : gmap string string) : option exn * gmap string string :=
  if leader then (None, <[key := value]> data) else (nonleader_write, data).

Definition get_app_data (key : string) (data : gmap string string)
    : option string :=
  data !! key.

(** charm.py, l. 222-224; [self.peers] exists only if the peers handler was
    added. *)
Definition leader_set (self : Charm) (key value : string) : option exn * Charm :=
  match peers (handler_attrs self) with
  | None => (Some (AttributeError "peers"), self)
  | Some _ =>
      let (r, d) := set_app_data (is_leader self) key value (peer_app_data self) in
      (r, with_peer_app_data d self)
  end.

(** charm.py, l. 226-228. *)
Definition leader_get (self : Charm) (key : string) : result (option string) :=
  match peers (handler_attrs self) with
  | None => Raise (AttributeError "peers")
  | Some _ => Ok (get_app_data key (peer_app_data self))
  end.

(** *** Sequences of dispatches

    Between two calls of [configure_charm] anything outside the engine may
    change (relation data, containers, the unit status, leadership); the
    stored state is only written by the charm.  The framework builds a new
    charm object for a dispatch with [__init__], from the stored state. *)
Inductive Step :=
| Call
| Outside (c' : Charm)
| Restart (d : CharmDef)
| LeaderSet (key value : string).

Definition failed (r : option exn) : list Event :=
  match r with
  | Some e => [EFailed e]
  | None => []
  end.

Definition step (c : Charm) (s : Step) : Charm * list Event :=
  match s with
  | Call =>
      let '(r, c', t) := configure_charm c in (c', t ++ failed r)
  | Outside c' => (with_state (_state c) c', [])
  | Restart d =>
      match __init__ d (_state c) (unit_status c) (world c) (is_leader c)
              (peer_app_data c) with
      | Ok c' => (c', [])
      | Raise e => (c, [EFailed e])
      end
  | LeaderSet key value =>
      let (r, c') := leader_set c key value in (c', failed r)
  end.

Fixpoint run (c : Charm) (steps : list Step) : Charm * list Event :=
  match steps with
  | [] => (c, [])
  | s :: rest =>
      let (c1, t1) := step c s in
      let (c2, t2) := run c1 rest in
      (c2, t1 ++ t2)
  end.

End Engine.


(** * lib/charms/sunbeam_mysql_k8s/v0/shared_db.py *)

Module SharedDB.

(** The events of [DatabaseServerEvents] and the relation events observed. *)
Inductive DBEvent := Connected | Ready | GoneAway.
Inductive RelationEvent :=
| RelationJoined | RelationChanged | RelationDeparted | RelationBroken.

#[global] Instance RelationEvent_eq_dec : EqDecision RelationEvent.
Proof. solve_decision. Defined.

(** The functions defined in the body of [SharedDBRequires], in order. *)
Inductive MethodId :=
| Init
| JoinedFirst        (* l. 86-88 *)
| JoinedSecond       (* l. 90-94 *)
| Changed            (* l. 96-100 *)
| Broken             (* l. 102-105 *)
| RequestAccess.     (* l. 107-111 *)

Inductive Value :=
| VNone
| VStr (s : string)
| VStrList (l : list string)
| VObject (what : string)
| VBoundMethod (m : MethodId).

(** Python truthiness. *)
Definition truthy (v : Value) : bool :=
  match v with
  | VNone => false
  | VStr s => negb (bool_decide (s = EmptyString))
  | VStrList l => negb (bool_decide (l = []))
  | VObject _ | VBoundMethod _ => true
  end.

(** A member of the class namespace. *)
Inductive Member :=
| ClassAttr (v : Value)
| Property (name : string)
| Function (m : MethodId).

(** Number of parameters after [self]. *)
Definition arity (m : MethodId) : nat :=
  match m with
  | Init => 3
  | JoinedFirst | JoinedSecond | Changed | Broken => 1
  | RequestAccess => 1
  end.

(** The class body, statement by statement (l. 56-111). *)
Definition class_body : list (string * Member) :=
  [ ("on", ClassAttr (VObject "DatabaseServerEvents"));
    ("_stored", ClassAttr (VObject "StoredState"));
    ("__init__", Function Init);
    ("_db_rel", Property "_db_rel");
    ("_on_database_relation_joined", Function JoinedFirst);
    ("_on_database_relation_joined", Function JoinedSecond);
    ("_on_database_relation_changed", Function Changed);
    ("_on_database_relation_broken", Function Broken);
    ("request_access", Function RequestAccess) ].

(** Executing the class body binds each name in turn; a later binding of a
    name replaces the earlier one. *)
Definition exec_class_body (body : list (string * Member)) : gmap string Member :=
  foldl (λ ns d, <[d.1 := d.2]> ns) ∅ body.

Definition class_dict : gmap string Member := exec_class_body class_body.

(** What instances get from [ops.framework.Object]: the attributes its
    [__init__] sets and its [model] property. *)
Definition object_dict : gmap string Member :=
  {[ "framework" := ClassAttr (VObject "Framework");
     "handle" := ClassAttr (VObject "Handle");
     "handle_kind" := ClassAttr (VStr "SharedDBRequires");
     "model" := ClassAttr (VObject "Model") ]}.

(** An instance: its [__dict__]. *)
Definition Self : Type := gmap string Value.

(** The state outside the object: whether the unit is the leader, the
    application data bag of the relation (if the relation exists) and the
    events emitted on [self.on] so far. *)
Record St := {
  unit_is_leader : bool;
  app_data : option (gmap string string);
  emitted : list DBEvent;
}.

Definition M (A : Type) : Type := St → result A * St.

Definition ret {A} (a : A) : M A := λ st, (Ok a, st).
Definition raise {A} (e : exn) : M A := λ st, (Raise e, st).
Definition bind {A B} (m : M A) (k : A → M B) : M B :=
  λ st, match m st with
        | (Ok a, st') => k a st'
        | (Raise e, st') => (Raise e, st')
        end.

Notation "'do' x <- m ; k" := (bind m (λ x, k))
  (at level 10, x name, m at level 100, k at level 200).
Notation "m ;; k" := (bind m (λ _, k))
  (at level 100, k at level 200, right associativity).

Definition with_emitted (e : DBEvent) (st : St) : St :=
  {| unit_is_leader := unit_is_leader st; app_data := app_data st;
     emitted := emitted st ++ [e] |}.

Definition with_app_data (d : gmap string string) (st : St) : St :=
  {| unit_is_leader := unit_is_leader st; app_data := Some d;
     emitted := emitted st |}.

Definition emit (e : DBEvent) : M unit := λ st, (Ok tt, with_emitted e st).

(** [self.<name>]: the instance dictionary, then the class, then the base. *)
Definition getattr (self : Self) (name : string) : M Value :=
  match self !! name with
  | Some v => ret v
  | None =>
      match class_dict !! name with
      | Some (ClassAttr v) => ret v
      | Some (Function m) => ret (VBoundMethod m)
      | Some (Property p) => ret (VObject p)
      | None =>
          match object_dict !! name with
          | Some (ClassAttr v) => ret v
          | Some (Function m) => ret (VBoundMethod m)
          | Some (Property p) => ret (VObject p)
          | None => raise (AttributeError name)
          end
      end
  end.

Section Methods.
(** [json.dumps] on a list of strings. *)
Variable json_dumps : list string → string.

(** [self._db_rel.data[self.charm.app][key] = value] *)
Definition write_app_data (key value : string) : M unit :=
  λ st, match app_data st with
        | None => (Raise (AttributeError "data"), st)
        | Some d => (Ok tt, with_app_data (<[key := value]> d) st)
        end.

(** [request_access(self, databases)] (l. 107-111). *)
Definition request_access (self : Self) (databases : Value) : M unit :=
  λ st,
    if unit_is_leader st then
      match databases with
      | VStrList dbs => write_app_data "databases" (json_dumps dbs) st
      | _ => (Raise (TypeError "not JSON serializable"), st)
      end
    else (Ok tt, st).

(** Python's default recursion limit. *)
Definition recursion_limit : nat := 1000.

(** Calling a bound method with positional arguments: the number of
    arguments is checked against the signature before the body runs. *)
Fixpoint call (depth : nat) (m : MethodId) (self : Self) (args : list Value)
    : M unit :=
  match depth with
  | 0 => raise (Exception "RecursionError")
  | S depth =>
      if negb (Nat.eqb (length args) (arity m)) then
        raise (TypeError "wrong number of positional arguments")
      else
        match m, args with
        | JoinedFirst, _ => ret tt
        | JoinedSecond, _ =>
            emit Connected ;;
            do f <- getattr self "request_access" ;
            do username <- getattr self "username" ;
            do databases <- getattr self "databases" ;
            match f with
            | VBoundMethod m' => call depth m' self [username; databases]
            | _ => raise (TypeError "object is not callable")
            end
        | Changed, _ =>
            do password <- getattr self "password" ;
            if truthy password then emit Ready else ret tt
        | Broken, _ => emit GoneAway
        | RequestAccess, [databases] => request_access self databases
        | _, _ => ret tt
        end
  end.

(** [__init__] (l. 59-79): the instance dictionary and the observers
    registered with the framework, each the bound method that the attribute
    lookup gave at that moment. *)
Definition observe (self : Self) (ev : RelationEvent) (name : string)
    : M (RelationEvent * Value) :=
  do f <- getattr self name ; ret (ev, f).

(** The attributes that [__init__] assigns (l. 61-63). *)
Definition new_instance (relation_name : string) (databases : list string)
    : Self :=
  let self : Self := ∅ in
  let self := <["charm" := VObject "charm"]> self in
  let self := <["relation_name" := VStr relation_name]> self in
  <["databases" := VStrList databases]> self.

Definition __init__ (relation_name : string) (databases : list string)
    : M (Self * list (RelationEvent * Value)) :=
  let self := new_instance relation_name databases in
  do o1 <- observe self RelationJoined "_on_database_relation_joined" ;
  do o2 <- observe self RelationChanged "_on_database_relation_changed" ;
  do o3 <- observe self RelationDeparted "_on_database_relation_changed" ;
  do o4 <- observe self RelationBroken "_on_database_relation_broken" ;
  ret (self, [o1; o2; o3; o4]).

(** The framework delivering a relation event: every observer registered
    for it is called with the event. *)
Fixpoint dispatch (self : Self) (observers : list (RelationEvent * Value))
    (ev : RelationEvent) : M unit :=
  match observers with
  | [] => ret tt
  | (ev', f) :: rest =>
      if bool_decide (ev' = ev) then
        match f with
        | VBoundMethod m =>
            call recursion_limit m self [VObject "event"] ;;
            dispatch self rest ev
        | _ => raise (TypeError "object is not callable")
        end
      else dispatch self rest ev
  end.

(** A requirer built by [__init__] receiving [ev] in state [st]. *)
Definition on_event (relation_name : string) (databases : list string)
    (ev : RelationEvent) : M unit :=
  do o <- __init__ relation_name databases ;
  dispatch o.1 o.2 ev.

(** The framework delivering a sequence of relation events to the
    requirer, one dispatch after the other; an exception ends the dispatch
    it occurs in, not the following ones.  The outcomes are listed in
    order. *)
Fixpoint deliver (self : Self) (observers : list (RelationEvent * Value))
    (evs : list RelationEvent) (st : St) : list (result unit) * St :=
  match evs with
  | [] => ([], st)
  | ev :: rest =>
      let (r, st1) := dispatch self observers ev st in
      let (rs, st2) := deliver self observers rest st1 in
      (r :: rs, st2)
  end.

End Methods.

End SharedDB.

(** ** Notions used to state the properties *)

(** Every handler of [b] was either among [hs0] or is for a declared relation. *)
Definition only_declared (d : CharmDef) (hs0 : list RelationHandler)
    (b : Building) : Prop :=
  ∀ h, h ∈ b.1 → h ∈ hs0 ∨ relation_name h ∈ dom (meta_relations d).

#[global] Instance CharmClass_eq_dec : EqDecision CharmClass.
Proof. solve_decision. Defined.

(** [suf] is a suffix of [s]. *)
Fixpoint ends_with (suf s : string) : bool :=
  if String.eqb s suf then true
  else match s with
       | EmptyString => false
       | String _ rest => ends_with suf rest
       end.

(** The relation names [get_relation_handlers] asks [can_add_handler]
    about, in the order of the source (charm.py, l. 79-109 and 246). *)
Definition base_candidate_names (d : CharmDef) : list string :=
  ["amqp"; service_name d +:+ "-db"; "shared-db"; "ingress"; "peers"].

Definition candidate_names (d : CharmDef) : list string :=
  match charm_class d with
  | OSBaseOperatorCharm => base_candidate_names d
  | OSBaseOperatorAPICharm => "identity-service" :: base_candidate_names d
  end.

(** One guarded addition: the handler is appended, and its attribute set,
    when [can_add_handler] allows it. *)
Definition Candidate : Type :=
  (RelationHandler → HandlerAttrs → HandlerAttrs) * RelationHandler.

Definition try_add (d : CharmDef) (b : Building) (c : Candidate) : Building :=
  if can_add_handler d (relation_name c.2) b.1 then add_handler c.1 c.2 b else b.

(** The handlers of the base class, for a given ingress port. *)
Definition base_candidates (d : CharmDef) (port : Z) : list Candidate :=
  [ (set_amqp, AMQPHandler "amqp"
                 (str_or (config d !! "rabbitmq-user") (service_name d))
                 (str_or (config d !! "rabbitmq-vhost") "openstack"));
    (set_db, DBHandler (service_name d +:+ "-db"));
    (set_db, SharedDBHandler "shared-db" [service_name d]);
    (set_ingress, IngressHandler "ingress" (service_name d) port);
    (set_peers, BasePeerHandler "peers") ].

(** All the handlers [get_relation_handlers] may construct, in order; the
    region and the port only matter when the handler is constructed. *)
Definition candidates (d : CharmDef) : list Candidate :=
  let base := base_candidates d (default 0%Z (ingress_port_override d)) in
  match charm_class d with
  | OSBaseOperatorCharm => base
  | OSBaseOperatorAPICharm =>
      (set_id_svc,
       IdentityServiceRequiresHandler "identity-service" (service_endpoints d)
         (default EmptyString (config d !! "region"))) :: base
  end.

Section EngineNotions.
Context `{Collab : Collaborators}.

(** The first loop, handler by handler. *)
Definition init_if_ready (ctx : Ctx) (ph : PebbleHandler) : PebbleHandler :=
  if pebble_ready ph then init_service ctx ph else ph.

(** The charm once both gates have been passed and the hook has returned. *)
Definition finalize (c : Charm) : Charm :=
  with_state (<["bootstrapped" := true]> (_state c)) (with_status ActiveStatus c).

(** The six ways through [configure_charm]. *)
Inductive pass_of (c : Charm) : Pass → Prop :=
| pass_relations_not_ready :
    relation_handlers_ready c = false →
    pass_of c (None, c, [])
| pass_services_not_ready phs t :
    relation_handlers_ready c = true →
    init_services c (pebble_handlers c) = (phs, t) →
    services_ready phs = false →
    pass_of c (None, with_pebble_handlers phs c, t)
| pass_no_flag phs t :
    relation_handlers_ready c = true →
    init_services c (pebble_handlers c) = (phs, t) →
    services_ready phs = true →
    _state c !! "bootstrapped" = None →
    pass_of c (Some (AttributeError "bootstrapped"), with_pebble_handlers phs c, t)
| pass_already_bootstrapped phs t :
    relation_handlers_ready c = true →
    init_services c (pebble_handlers c) = (phs, t) →
    services_ready phs = true →
    _state c !! "bootstrapped" = Some true →
    pass_of c (None, finalize (with_pebble_handlers phs c),
               t ++ [ESetStatus ActiveStatus])
| pass_bootstrap_raised phs t w e :
    relation_handlers_ready c = true →
    init_services c (pebble_handlers c) = (phs, t) →
    services_ready phs = true →
    _state c !! "bootstrapped" = Some false →
    _do_bootstrap (world c) = (w, Some e) →
    pass_of c (Some e, with_world w (with_pebble_handlers phs c),
               t ++ [EBootstrap (Some e)])
| pass_bootstrap_done phs t w :
    relation_handlers_ready c = true →
    init_services c (pebble_handlers c) = (phs, t) →
    services_ready phs = true →
    _state c !! "bootstrapped" = Some false →
    _do_bootstrap (world c) = (w, None) →
    pass_of c (None, finalize (with_world w (with_pebble_handlers phs c)),
               t ++ [EBootstrap None; ESetStatus ActiveStatus]).

(** The [init_service] calls of a trace. *)
Definition is_init_service (e : Event) : bool :=
  match e with
  | EInitService _ _ => true
  | _ => false
  end.

Definition init_service_calls (t : list Event) : list Event :=
  List.filter is_init_service t.

(** The invocations of the bootstrap hook in a trace, each with the
    exception it raised ([None] for a hook that returned). *)
Definition hook_calls (t : list Event) : list (option exn) :=
  omap (λ e, match e with EBootstrap r => Some r | _ => None end) t.

(** Failed invocations, then at most one that succeeds, then nothing. *)
Fixpoint retried_until_success (calls : list (option exn)) : bool :=
  match calls with
  | [] => true
  | Some _ :: rest => retried_until_success rest
  | None :: rest => bool_decide (rest = [])
  end.

(** The stored flag, as the persistent storage holds it. *)
Definition flag (c : Charm) : option bool := _state c !! "bootstrapped".

(** The relation handlers observe the same in [w'] as in [w]: same
    readiness, same contribution to a context. *)
Definition same_dependency_state (w w' : World) : Prop :=
  (∀ h, ready w' h = ready w h)
  ∧ (∀ h ra, add_relation_handler w' h ra = add_relation_handler w h ra).

(** The charm [c'] is the converged charm [c] up to the state of its
    pebble handlers, which are all ready. *)
Definition converged_like (c c' : Charm) : Prop :=
  charm_def c' = charm_def c
  ∧ relation_handlers c' = relation_handlers c
  ∧ world c' = world c
  ∧ _state c' = _state c
  ∧ unit_status c' = ActiveStatus
  ∧ services_ready (pebble_handlers c') = true.

End EngineNotions.

(** ** A concrete set of collaborators

    Small stand-ins for the handler modules, used to run the engine on
    concrete charms: a relation is ready when its name is listed in the
    world, a context is the list of namespaces written into it, a pebble
    handler remembers the last context pushed to it, and the bootstrap hook
    fails when the world says so. *)
Module Sample.

Record SWorld := {
  ready_relations : list string;
  hook_fails : bool;
  bootstraps : nat;
}.

Record SPebble := {
  sp_container : string;
  sp_pebble_ready : bool;
  sp_service_ready : bool;
  sp_pushed : option (list string);
}.

Definition namespace_of (cc : ConfigContext) : string :=
  match cc with
  | CharmConfigContext ns => ns
  | WSGIWorkerConfigContext ns => ns
  end.

Definition s_init_service (ctx : list string) (ph : SPebble) : SPebble :=
  {| sp_container := sp_container ph; sp_pebble_ready := sp_pebble_ready ph;
     sp_service_ready := true; sp_pushed := Some ctx |}.

Definition s_do_bootstrap (w : SWorld) : SWorld * option exn :=
  if hook_fails w then (w, Some (Exception "bootstrap failed"))
  else ({| ready_relations := ready_relations w; hook_fails := false;
           bootstraps := S (bootstraps w) |}, None).

#[local] Instance collab : Collaborators := {|
  World := SWorld;
  Ctx := list string;
  PebbleHandler := SPebble;
  ready w h := bool_decide (relation_name h ∈ ready_relations w);
  OPSCharmContexts _ := [];
  add_relation_handler _ h ctx := ctx ++ [relation_name h];
  add_config_contexts _ ccs ctx := ctx ++ (namespace_of <$> ccs);
  new_PebbleHandler c _ _ _ _ :=
    {| sp_container := c; sp_pebble_ready := false; sp_service_ready := false;
       sp_pushed := None |};
  new_WSGIPebbleHandler c _ _ _ _ _ :=
    {| sp_container := c; sp_pebble_ready := false; sp_service_ready := false;
       sp_pushed := None |};
  pebble_ready := sp_pebble_ready;
  service_ready := sp_service_ready;
  init_service := s_init_service;
  _do_bootstrap := s_do_bootstrap;
|}.

(** A charm whose metadata declares [amqp] and [peers]. *)
Definition glance : CharmDef :=
  {| charm_class := OSBaseOperatorCharm;
     service_name := "glance";
     meta_relations := {[ "amqp" := "rabbitmq"; "peers" := "glance-peer" ]};
     config := ∅;
     openstack_release := "xena";
     ingress_port_override := None |}.

Definition amqp_handler : RelationHandler := AMQPHandler "amqp" "glance" "openstack".
Definition peers_handler : RelationHandler := BasePeerHandler "peers".
Definition shared_db_handler : RelationHandler := SharedDBHandler "shared-db" ["glance"].

Definition container (pr sr : bool) : SPebble :=
  {| sp_container := "glance"; sp_pebble_ready := pr; sp_service_ready := sr;
     sp_pushed := None |}.

Definition a_world (rels : list string) (fails : bool) : SWorld :=
  {| ready_relations := rels; hook_fails := fails; bootstraps := 0 |}.

Definition a_charm (hs : list RelationHandler) (phs : list SPebble)
    (st : gmap string bool) (w : SWorld) (leader : bool) : Charm :=
  {| charm_def := glance; relation_handlers := hs;
     handler_attrs := set_peers peers_handler (set_amqp amqp_handler no_attrs);
     pebble_handlers := phs; _state := st; unit_status := WaitingStatus;
     world := w; is_leader := leader; peer_app_data := ∅ |}.

(** Only [peers] is ready: the charm waits for [amqp]. *)
Definition waiting : Charm :=
  a_charm [amqp_handler; peers_handler] [container true false]
    {[ "bootstrapped" := false ]} (a_world ["peers"] false) false.

(** Everything is ready and the bootstrap hook works. *)
Definition converging : Charm :=
  a_charm [amqp_handler; peers_handler] [container true false]
    {[ "bootstrapped" := false ]} (a_world ["amqp"; "peers"] false) true.

(** Everything is ready and the bootstrap hook fails. *)
Definition failing : Charm :=
  a_charm [amqp_handler; peers_handler] [container true false]
    {[ "bootstrapped" := false ]} (a_world ["amqp"; "peers"] true) false.

(** Two containers, the second of which cannot be reached yet. *)
Definition half_ready : Charm :=
  a_charm [amqp_handler; peers_handler] [container true false; container false false]
    {[ "bootstrapped" := false ]} (a_world ["amqp"; "peers"] false) false.

(** A handler for [shared-db], which the metadata does not declare. *)
Definition stale : Charm :=
  a_charm [amqp_handler; shared_db_handler; peers_handler] [container true false]
    {[ "bootstrapped" := false ]} (a_world ["amqp"; "shared-db"; "peers"] false) false.

(** An API charm with all its relations declared. *)
Definition keystone : CharmDef :=
  {| charm_class := OSBaseOperatorAPICharm;
     service_name := "keystone";
     meta_relations := {[ "identity-service" := "keystone";
                          "keystone-db" := "mysql_datastore";
                          "shared-db" := "mysql-shared";
                          "ingress" := "ingress";
                          "peers" := "keystone-peer" ]};
     config := {[ "region" := "RegionOne" ]};
     openstack_release := "xena";
     ingress_port_override := Some 5000%Z |}.

(** A leader unit of the requirer with an empty relation data bag. *)
Definition db_leader : SharedDB.St :=
  {| SharedDB.unit_is_leader := true; SharedDB.app_data := Some ∅;
     SharedDB.emitted := [] |}.

(** [json.dumps] on plain names: each name between double quotes. *)
Definition quoted (s : string) : string :=
  String "034"%char s +:+ String "034"%char EmptyString.

Definition json_names (l : list string) : string :=
  "[" +:+ String.concat ", " (quoted <$> l) +:+ "]".

End Sample.

(** * Properties *)

(** ** Handler construction *)

Lemma can_add_handler_declared d n hs :
  can_add_handler d n hs = true → n ∈ dom (meta_relations d).
Proof.
  unfold can_add_handler. case_bool_decide as Hin; simpl; [|done].
  by intros _.
Qed.

Lemma can_add_handler_fresh d n hs :
  can_add_handler d n hs = true → n ∉ relation_name <$> hs.
Proof.
  unfold can_add_handler.
  case_bool_decide; simpl; [|done]. by case_bool_decide.
Qed.

Lemma only_declared_add d hs0 set h b :
  only_declared d hs0 b →
  can_add_handler d (relation_name h) b.1 = true →
  only_declared d hs0 (add_handler set h b).
Proof.
  intros Hb Hcan h' Hin. unfold add_handler in Hin; simpl in Hin.
  apply elem_of_app in Hin as [Hin|Hin]; [by apply Hb|].
  apply list_elem_of_singleton in Hin as ->. right.
  by eapply can_add_handler_declared.
Qed.

Lemma only_declared_guard d hs0 set h b :
  only_declared d hs0 b →
  only_declared d hs0
    (if can_add_handler d (relation_name h) b.1 then add_handler set h b else b).
Proof.
  intros Hb. destruct (can_add_handler _ _ _) eqn:Hcan; [|done].
  by apply only_declared_add.
Qed.

Lemma base_get_relation_handlers_declared d hs0 hs attrs b :
  only_declared d hs0 (list_or_nil hs, attrs) →
  base_get_relation_handlers d hs attrs = Ok b →
  only_declared d hs0 b.
Proof.
  intros H0. unfold base_get_relation_handlers.
  set (b1 := if can_add_handler d "amqp" _ then _ else _).
  set (b2 := if can_add_handler d (service_name d +:+ "-db") _ then _ else _).
  set (b3 := if can_add_handler d "shared-db" _ then _ else _).
  assert (H1 : only_declared d hs0 b1)
    by apply (only_declared_guard d hs0 set_amqp (AMQPHandler "amqp" _ _)), H0.
  assert (H2 : only_declared d hs0 b2)
    by apply (only_declared_guard d hs0 set_db (DBHandler _)), H1.
  assert (H3 : only_declared d hs0 b3)
    by apply (only_declared_guard d hs0 set_db (SharedDBHandler "shared-db" _)), H2.
  clearbody b3. clear H0 H1 H2 b1 b2.
  destruct (can_add_handler d "ingress" b3.1) eqn:Hing; simpl.
  - destruct (default_public_ingress_port d) as [port|e]; simpl; [|done].
    intros [= <-].
    apply (only_declared_guard d hs0 set_peers (BasePeerHandler "peers")
             (add_handler set_ingress (IngressHandler "ingress" _ port) b3)).
    by apply only_declared_add.
  - intros [= <-].
    by apply (only_declared_guard d hs0 set_peers (BasePeerHandler "peers") b3).
Qed.

Lemma list_or_nil_elem {A} (l : option (list A)) x :
  x ∈ list_or_nil l → ∃ l', l = Some l' ∧ x ∈ l'.
Proof.
  destruct l as [[|y l']|]; simpl; intros Hin; try by inversion Hin.
  eauto.
Qed.

Lemma get_relation_handlers_declared d hs attrs b :
  get_relation_handlers d hs attrs = Ok b →
  only_declared d (list_or_nil hs) b.
Proof.
  unfold get_relation_handlers. destruct (charm_class d).
  - apply base_get_relation_handlers_declared. intros h Hin. by left.
  - unfold api_get_relation_handlers.
    destruct (can_add_handler d "identity-service" _) eqn:Hid; simpl.
    + destruct (config d !! "region") as [region|]; simpl; [|done].
      apply base_get_relation_handlers_declared.
      intros h Hin. cbn [fst] in Hin.
      apply list_or_nil_elem in Hin as (l' & [= <-] & Hin).
      apply elem_of_app in Hin as [Hin|Hin]; [by left|].
      apply list_elem_of_singleton in Hin as ->. right.
      by eapply can_add_handler_declared.
    + apply base_get_relation_handlers_declared.
      intros h Hin. cbn [fst] in Hin.
      apply list_or_nil_elem in Hin as (l' & [= <-] & Hin).
      by left.
Qed.

(** ** The reconciliation pass *)

Section EngineFacts.
Context `{Collab : Collaborators}.

Lemma handlers_ready_true w hs :
  handlers_ready w hs = true ↔ ∀ h, h ∈ hs → ready w h = true.
Proof.
  induction hs as [|h hs IH]; simpl.
  - split; [|done]. intros _ h Hin. inversion Hin.
  - destruct (ready w h) eqn:Hr; simpl.
    + rewrite IH. split.
      * intros Hall h' Hin. apply elem_of_cons in Hin as [->|Hin]; auto.
      * intros Hall h' Hin. apply Hall. by right.
    + split; [done|]. intros Hall.
      rewrite Hall in Hr; [done|by left].
Qed.

Lemma handlers_ready_false w hs h :
  h ∈ hs → ready w h = false → handlers_ready w hs = false.
Proof.
  intros Hin Hr. destruct (handlers_ready w hs) eqn:Hall; [|done].
  rewrite handlers_ready_true in Hall. rewrite Hall in Hr; done.
Qed.

Lemma services_ready_true phs :
  services_ready phs = true ↔ ∀ ph, ph ∈ phs → service_ready ph = true.
Proof.
  induction phs as [|ph phs IH]; simpl.
  - split; [|done]. intros _ ph Hin. inversion Hin.
  - destruct (service_ready ph) eqn:Hr; simpl.
    + rewrite IH. split.
      * intros Hall ph' Hin. apply elem_of_cons in Hin as [->|Hin]; auto.
      * intros Hall ph' Hin. apply Hall. by right.
    + split; [done|]. intros Hall.
      rewrite Hall in Hr; [done|by left].
Qed.

Lemma init_services_handlers c phs :
  (init_services c phs).1 = init_if_ready (contexts c) <$> phs.
Proof.
  induction phs as [|ph phs IH]; [done|]. simpl.
  destruct (init_services c phs) as [rest t]. simpl in IH. subst rest.
  unfold init_one, init_if_ready. by destruct (pebble_ready ph).
Qed.

Lemma init_services_trace c phs :
  (init_services c phs).2
  = (λ ph, EInitService ph (contexts c)) <$> List.filter pebble_ready phs.
Proof.
  induction phs as [|ph phs IH]; [done|]. simpl.
  destruct (init_services c phs) as [rest t]. simpl in IH. subst t.
  unfold init_one. by destruct (pebble_ready ph).
Qed.

Lemma configure_charm_pass_of c : pass_of c (configure_charm c).
Proof.
  unfold configure_charm.
  destruct (relation_handlers_ready c) eqn:Hrel; simpl;
    [|by apply pass_relations_not_ready].
  destruct (init_services c (pebble_handlers c)) as [phs t] eqn:Hinit. simpl.
  destruct (services_ready phs) eqn:Hsvc; simpl;
    [|by eapply pass_services_not_ready].
  unfold bootstrapped. simpl.
  destruct (_state c !! "bootstrapped") as [[|]|] eqn:Hflag; simpl.
  - by eapply pass_already_bootstrapped.
  - destruct (_do_bootstrap (world c)) as [w [e|]] eqn:Hhook.
    + by eapply pass_bootstrap_raised.
    + by eapply pass_bootstrap_done.
  - by eapply pass_no_flag.
Qed.

Lemma add_ready_handlers_drop d w hs ra R :
  R ∉ dom (meta_relations d) →
  add_ready_handlers d w (filter (λ h, relation_name h ≠ R) hs) ra
  = add_ready_handlers d w hs ra.
Proof.
  intros HR. revert ra. induction hs as [|h hs IH]; intros ra; [done|].
  destruct (decide (relation_name h = R)) as [Heq|Hne].
  - rewrite filter_cons_False; [|by intros Hn; apply Hn]. simpl.
    rewrite bool_decide_eq_false_2; [|by rewrite Heq]. simpl. apply IH.
  - rewrite filter_cons_True; [|done]. simpl.
    destruct (negb _); [apply IH|].
    destruct (ready w h); apply IH.
Qed.

(** The context is built from the declared, ready handlers alone. *)
Lemma add_ready_handlers_fold d w hs ra :
  add_ready_handlers d w hs ra
  = foldl (λ ra h, add_relation_handler w h ra) ra
      (filter (λ h, relation_name h ∈ dom (meta_relations d) ∧ ready w h = true) hs).
Proof.
  revert ra. induction hs as [|h hs IH]; intros ra; [done|]. simpl.
  case_bool_decide as Hdecl; simpl.
  - destruct (ready w h) eqn:Hr.
    + rewrite filter_cons_True; [|done]. simpl. apply IH.
    + rewrite filter_cons_False; [apply IH|]. intros [_ ?]; congruence.
  - rewrite filter_cons_False; [apply IH|]. by intros [? _].
Qed.

Lemma init_service_calls_app t1 t2 :
  init_service_calls (t1 ++ t2) = init_service_calls t1 ++ init_service_calls t2.
Proof. apply List.filter_app. Qed.

Lemma init_service_calls_init_services c phs :
  init_service_calls (init_services c phs).2 = (init_services c phs).2.
Proof.
  rewrite init_services_trace. unfold init_service_calls.
  induction (List.filter pebble_ready phs) as [|ph l IH]; [done|].
  cbn. by f_equal.
Qed.

Lemma init_services_trace_elem c phs e :
  e ∈ (init_services c phs).2 →
  ∃ ph, e = EInitService ph (contexts c) ∧ ph ∈ phs ∧ pebble_ready ph = true.
Proof.
  rewrite init_services_trace. intros Hel.
  apply list_elem_of_fmap in Hel as (ph & -> & Hin).
  apply list_elem_of_In, List.filter_In in Hin as [Hin Hpr].
  exists ph. by rewrite list_elem_of_In.
Qed.

Lemma hook_calls_app t1 t2 :
  hook_calls (t1 ++ t2) = hook_calls t1 ++ hook_calls t2.
Proof. apply omap_app. Qed.

Lemma hook_calls_init_services c phs : hook_calls (init_services c phs).2 = [].
Proof.
  rewrite init_services_trace.
  induction (List.filter pebble_ready phs) as [|ph l IH]; [done|]. by cbn.
Qed.

Lemma hook_calls_elem t r : r ∈ hook_calls t ↔ EBootstrap r ∈ t.
Proof.
  unfold hook_calls. rewrite list_elem_of_omap. split.
  - intros (e & Hin & He). destruct e; naive_solver.
  - intros Hin. by exists (EBootstrap r).
Qed.

Lemma hook_calls_failed r : hook_calls (failed r) = [].
Proof. by destruct r. Qed.

Lemma bootstrapped_flag c b : bootstrapped c = Ok b ↔ flag c = Some b.
Proof.
  unfold bootstrapped, flag. destruct (_state c !! "bootstrapped"); naive_solver.
Qed.

Lemma retried_after_success l1 l2 :
  retried_until_success (l1 ++ None :: l2) = true → l2 = [].
Proof.
  induction l1 as [|[e|] l1 IH]; simpl.
  - apply bool_decide_eq_true_1.
  - done.
  - intros H. apply bool_decide_eq_true_1 in H. by destruct l1.
Qed.

Lemma retried_all_returned l :
  retried_until_success l = true → (∀ r, r ∈ l → r = None) → (length l ≤ 1)%nat.
Proof.
  destruct l as [|[e|] l]; simpl; [lia| |].
  - intros _ Hall. specialize (Hall (Some e)). discriminate Hall. by left.
  - intros H _. apply bool_decide_eq_true_1 in H as ->. simpl. lia.
Qed.

Lemma flag_finalize c : flag (finalize c) = Some true.
Proof. unfold flag, finalize. simpl. apply lookup_insert_eq. Qed.

(** Once the flag is set, a pass does not call the hook and leaves the
    stored state as it is. *)
Lemma configure_charm_bootstrapped c r c' t :
  configure_charm c = (r, c', t) →
  flag c = Some true →
  r = None ∧ hook_calls t = [] ∧ _state c' = _state c.
Proof.
  intros Hcc Hflag. pose proof (configure_charm_pass_of c) as Hp.
  rewrite Hcc in Hp. unfold flag in Hflag.
  inversion Hp as [Hn|phs t1 _ Hi Hs|phs t1 _ Hi Hs Hf|phs t1 _ Hi Hs Hf
                   |phs t1 w e _ Hi Hs Hf Hh|phs t1 w _ Hi Hs Hf Hh]; subst;
    try congruence;
    try (pose proof (hook_calls_init_services c (pebble_handlers c)) as Hhc;
         rewrite Hi in Hhc; simpl in Hhc).
  - done.
  - done.
  - rewrite hook_calls_app, Hhc. simpl. repeat split.
    by apply insert_id.
Qed.

(** What one pass does to the hook and to the flag. *)
Lemma configure_charm_hook c r c' t :
  configure_charm c = (r, c', t) →
  (hook_calls t = [] ∧ (flag c = Some true → flag c' = Some true))
  ∨ (∃ e, hook_calls t = [Some e] ∧ r = Some e ∧ flag c = Some false
          ∧ _state c' = _state c)
  ∨ (hook_calls t = [None] ∧ r = None ∧ flag c = Some false
     ∧ flag c' = Some true).
Proof.
  intros Hcc. pose proof (configure_charm_pass_of c) as Hp. rewrite Hcc in Hp.
  pose proof (hook_calls_init_services c (pebble_handlers c)) as Hhc.
  inversion Hp as [Hn|phs t1 _ Hi Hs|phs t1 _ Hi Hs Hf|phs t1 _ Hi Hs Hf
                   |phs t1 w e _ Hi Hs Hf Hh|phs t1 w _ Hi Hs Hf Hh]; subst;
    try (rewrite Hi in Hhc; simpl in Hhc).
  - left. done.
  - left. done.
  - left. done.
  - left. rewrite hook_calls_app, Hhc. split; [done|].
    intros _. apply flag_finalize.
  - right; left. exists e. rewrite hook_calls_app, Hhc. done.
  - right; right. rewrite hook_calls_app, Hhc. repeat split; try done.
    apply flag_finalize.
Qed.

(** The hook is only ever invoked on the world of the charm. *)
Lemma configure_charm_hook_origin c r c' t x :
  configure_charm c = (r, c', t) →
  EBootstrap x ∈ t → x = (_do_bootstrap (world c)).2.
Proof.
  intros Hcc Hel. apply hook_calls_elem in Hel.
  pose proof (configure_charm_pass_of c) as Hp. rewrite Hcc in Hp.
  pose proof (hook_calls_init_services c (pebble_handlers c)) as Hhc.
  inversion Hp as [Hn|phs t1 _ Hi Hs|phs t1 _ Hi Hs Hf|phs t1 _ Hi Hs Hf
                   |phs t1 w e _ Hi Hs Hf Hh|phs t1 w _ Hi Hs Hf Hh]; subst;
    try (rewrite Hi in Hhc; simpl in Hhc);
    try rewrite hook_calls_app in Hel; try rewrite Hhc in Hel;
    simpl in Hel; try by inversion Hel.
  - apply list_elem_of_singleton in Hel as ->. by rewrite Hh.
  - apply list_elem_of_singleton in Hel as ->. by rewrite Hh.
Qed.

End EngineFacts.

(** ** Sequences of dispatches *)

Lemma set_default_lookup_other key v st k :
  is_Some (st !! k) → set_default key v st !! k = st !! k.
Proof.
  intros [b Hb]. unfold set_default.
  destruct (st !! key) eqn:Hkey; [done|].
  rewrite lookup_insert_ne; [done|]. intros ->. congruence.
Qed.

Section EngineRuns.
Context `{Collab : Collaborators}.
Variable nonleader_write : option exn.

Lemma init_flag_kept d stored status w leader pd c b :
  __init__ d stored status w leader pd = Ok c →
  stored !! "bootstrapped" = Some b →
  flag c = Some b.
Proof.
  unfold __init__. destruct (get_relation_handlers d None no_attrs); simpl; [|done].
  intros [= <-] Hst. unfold flag. simpl.
  assert (Hd : set_default "bootstrapped" false stored !! "bootstrapped" = Some b)
    by (rewrite set_default_lookup_other; [done|by eexists]).
  destruct (charm_class d); [done|].
  rewrite set_default_lookup_other; [done|by eexists].
Qed.

Lemma init_flag_fresh d stored status w leader pd c :
  __init__ d stored status w leader pd = Ok c →
  stored !! "bootstrapped" = None →
  flag c = Some false.
Proof.
  unfold __init__. destruct (get_relation_handlers d None no_attrs); simpl; [|done].
  intros [= <-] Hst. unfold flag. simpl.
  assert (Hd : set_default "bootstrapped" false stored !! "bootstrapped" = Some false)
    by (unfold set_default; rewrite Hst; apply lookup_insert_eq).
  destruct (charm_class d); [done|].
  rewrite set_default_lookup_other; [done|by eexists].
Qed.

Lemma leader_set_state c key value :
  _state (leader_set nonleader_write c key value).2 = _state c.
Proof.
  unfold leader_set. destruct (peers _); [|done].
  unfold set_app_data. by destruct (is_leader c).
Qed.

(** What one step does to the hook and to the flag. *)
Lemma step_hook c s :
  (hook_calls (step nonleader_write c s).2 = []
   ∧ (flag c = Some true → flag (step nonleader_write c s).1 = Some true))
  ∨ (∃ e, hook_calls (step nonleader_write c s).2 = [Some e]
          ∧ flag c = Some false)
  ∨ (hook_calls (step nonleader_write c s).2 = [None]
     ∧ flag c = Some false
     ∧ flag (step nonleader_write c s).1 = Some true).
Proof.
  destruct s as [|c'|d|key value]; simpl.
  - destruct (configure_charm c) as [[r c'] t] eqn:Hcc. simpl.
    rewrite hook_calls_app, hook_calls_failed, app_nil_r.
    destruct (configure_charm_hook _ _ _ _ Hcc)
      as [?|[(e & ? & _ & ? & _)|(? & _ & ? & ?)]]; eauto.
  - left. done.
  - destruct (__init__ d _ _ _ _ _) as [c'|e] eqn:Hinit; simpl; left.
    + split; [done|]. intros Hflag. by eapply init_flag_kept.
    + done.
  - pose proof (leader_set_state c key value) as Hst.
    destruct (leader_set nonleader_write c key value) as [r c']. simpl in *.
    left. rewrite hook_calls_failed. split; [done|].
    unfold flag. by rewrite Hst.
Qed.

Lemma run_hook c steps :
  retried_until_success (hook_calls (run nonleader_write c steps).2) = true
  ∧ (flag c = Some true →
       hook_calls (run nonleader_write c steps).2 = []
       ∧ flag (run nonleader_write c steps).1 = Some true).
Proof.
  revert c. induction steps as [|s steps IH]; intros c; [done|]. simpl.
  pose proof (step_hook c s) as Hs.
  destruct (step nonleader_write c s) as [c1 t1]. simpl in Hs.
  destruct (IH c1) as [IHr IHf].
  destruct (run nonleader_write c1 steps) as [c2 t2]. simpl in *.
  rewrite hook_calls_app.
  destruct Hs as [[-> Hkeep]|[(e & -> & Hfalse)|(-> & Hfalse & Htrue)]]; simpl.
  - split; [done|]. intros Hflag. by apply IHf, Hkeep.
  - split; [done|]. congruence.
  - destruct (IHf Htrue) as [-> _]. split; [done|]. congruence.
Qed.

Lemma run_hook_origin c steps x :
  EBootstrap x ∈ (run nonleader_write c steps).2 →
  ∃ w, x = (_do_bootstrap w).2.
Proof.
  revert c. induction steps as [|s steps IH]; intros c; simpl.
  - intros Hel. inversion Hel.
  - destruct (step nonleader_write c s) as [c1 t1] eqn:Hstep.
    specialize (IH c1).
    destruct (run nonleader_write c1 steps) as [c2 t2]. simpl in *.
    intros Hel. apply elem_of_app in Hel as [Hel|Hel]; [|by apply IH].
    destruct s as [|c0|d|key value]; simpl in Hstep.
    + destruct (configure_charm c) as [[r c'] t] eqn:Hcc.
      injection Hstep as <- <-.
      apply elem_of_app in Hel as [Hel|Hel].
      * exists (world c). by eapply configure_charm_hook_origin.
      * destruct r; simpl in Hel; [|by inversion Hel].
        apply list_elem_of_singleton in Hel. done.
    + injection Hstep as <- <-. inversion Hel.
    + destruct (__init__ _ _ _ _ _ _); injection Hstep as <- <-.
      * inversion Hel.
      * apply list_elem_of_singleton in Hel. done.
    + destruct (leader_set _ _ _ _) as [r c']. injection Hstep as <- <-.
      destruct r; simpl in Hel; [|by inversion Hel].
      apply list_elem_of_singleton in Hel. done.
Qed.

End EngineRuns.

(** ** Repeated passes on a converged charm *)

Section Converged.
Context `{Collab : Collaborators}.
Variable nonleader_write : option exn.

Lemma add_ready_handlers_same d w w' hs ra :
  same_dependency_state w w' →
  add_ready_handlers d w' hs ra = add_ready_handlers d w hs ra.
Proof.
  intros [Hr Ha]. revert ra. induction hs as [|h hs IH]; intros ra; [done|].
  simpl. rewrite Hr. destruct (negb _); [apply IH|].
  destruct (ready w h); [|apply IH]. by rewrite Ha, IH.
Qed.

Lemma contexts_same c c' :
  charm_def c' = charm_def c →
  relation_handlers c' = relation_handlers c →
  same_dependency_state (world c) (world c') →
  contexts c' = contexts c.
Proof.
  intros Hd Hh Hw. unfold contexts. rewrite Hd, Hh.
  by rewrite (add_ready_handlers_same _ (world c)).
Qed.

Lemma handlers_ready_same w w' hs :
  same_dependency_state w w' → handlers_ready w' hs = handlers_ready w hs.
Proof.
  intros [Hr _]. induction hs as [|h hs IH]; [done|]. simpl.
  by rewrite Hr, IH.
Qed.

Lemma converged_pass c c' :
  relation_handlers_ready c = true →
  flag c = Some true →
  (∀ ph, service_ready ph = true →
     service_ready (init_service (contexts c) ph) = true) →
  converged_like c c' →
  ∃ c'' t,
    configure_charm c' = (None, c'', t)
    ∧ converged_like c c''
    ∧ ∀ e, e ∈ t →
        (∃ ph, e = EInitService ph (contexts c)) ∨ e = ESetStatus ActiveStatus.
Proof.
  intros Hrel Hflag Hstable (Hd & Hh & Hw & Hst & Hus & Hsv).
  assert (Hctx : contexts c' = contexts c).
  { apply contexts_same; [done..|]. rewrite Hw. by split. }
  pose proof (configure_charm_pass_of c') as Hp.
  pose proof (init_services_handlers c' (pebble_handlers c')) as Hphs.
  assert (Hrel' : relation_handlers_ready c' = true).
  { unfold relation_handlers_ready in *. by rewrite Hh, Hw. }
  assert (Hflag' : _state c' !! "bootstrapped" = Some true) by by rewrite Hst.
  assert (Hsv' : services_ready (init_services c' (pebble_handlers c')).1 = true).
  { rewrite Hphs, Hctx. apply services_ready_true.
    intros ph Hin. apply list_elem_of_fmap in Hin as (ph0 & -> & Hin).
    rewrite services_ready_true in Hsv. specialize (Hsv ph0 Hin).
    unfold init_if_ready. destruct (pebble_ready ph0); auto. }
  destruct (configure_charm c') as [[r c''] t].
  inversion Hp as [Hn|phs t1 _ Hi Hs|phs t1 _ Hi Hs Hf|phs t1 _ Hi Hs Hf
                   |phs t1 w e _ Hi Hs Hf Hh'|phs t1 w _ Hi Hs Hf Hh']; subst;
    try rewrite Hi in Hsv'; simpl in *; try congruence.
  eexists _, _. split; [done|]. split.
  - repeat split; simpl; try done.
    rewrite Hst. apply insert_id. done.
  - intros e Hel. apply elem_of_app in Hel as [Hel|Hel].
    + pose proof (init_services_trace_elem c' (pebble_handlers c') e) as Hx.
      rewrite Hi in Hx. destruct (Hx Hel) as (ph & -> & _).
      left. exists ph. by rewrite Hctx.
    + apply list_elem_of_singleton in Hel. by right.
Qed.

Lemma converged_run c c' n :
  relation_handlers_ready c = true →
  flag c = Some true →
  (∀ ph, service_ready ph = true →
     service_ready (init_service (contexts c) ph) = true) →
  converged_like c c' →
  converged_like c (run nonleader_write c' (replicate n Call)).1
  ∧ ∀ e, e ∈ (run nonleader_write c' (replicate n Call)).2 →
      (∃ ph, e = EInitService ph (contexts c)) ∨ e = ESetStatus ActiveStatus.
Proof.
  intros Hrel Hflag Hstable. revert c'.
  induction n as [|n IH]; intros c' Hlike; simpl.
  - split; [done|]. intros e Hel. inversion Hel.
  - destruct (converged_pass c c' Hrel Hflag Hstable Hlike)
      as (c'' & t & Hcc & Hlike' & Ht).
    rewrite Hcc. simpl. destruct (IH c'' Hlike') as [IHl IHt].
    destruct (run nonleader_write c'' (replicate n Call)) as [cn tn].
    simpl in *. split; [done|].
    intros e Hel. rewrite app_nil_r in Hel.
    apply elem_of_app in Hel as [Hel|Hel]; auto.
Qed.

End Converged.

(** * The properties of the specification *)

Section EngineClaims.
Context `{Collab : Collaborators}.
Variable nonleader_write : option exn.

(** C1 (dependency gate).  In a pass in which at least one relation handler
    is not ready, [configure_charm] returns at the gate: the charm is left
    exactly as it was (so [bootstrapped] and the unit status are untouched)
    and no event occurs, in particular no [init_service] call and no write
    of the active status. *)
Theorem configure_charm_dependency_gate (c : Charm) (h : RelationHandler) :
  h ∈ relation_handlers c →
  ready (world c) h = false →
  configure_charm c = (None, c, [])
  ∧ (∀ c' t r, configure_charm c = (r, c', t) →
       bootstrapped c' = bootstrapped c
       ∧ unit_status c' = unit_status c
       ∧ (∀ ph ctx, EInitService ph ctx ∉ t)
       ∧ ESetStatus ActiveStatus ∉ t).
Proof.
  intros Hin Hr.
  assert (Hgate : configure_charm c = (None, c, [])).
  { unfold configure_charm, relation_handlers_ready.
    by rewrite (handlers_ready_false _ _ h Hin Hr). }
  split; [done|].
  intros c' t r. rewrite Hgate. intros [= <- <- <-].
  repeat split; try done.
  - intros ph ctx Hel. inversion Hel.
  - intros Hel. inversion Hel.
Qed.

(** C5 (process initialisation and process gate).  In a pass in which all
    relation handlers are ready, the [init_service] calls are, in order,
    one call with the aggregated context for each pebble handler whose
    [pebble_ready] is true; the other handlers are left alone.  If after
    that some handler's [service_ready] is false, the pass returns without
    calling the bootstrap hook and without touching the status or the
    stored state. *)
Theorem configure_charm_initialises_reachable (c : Charm) :
  (∀ h, h ∈ relation_handlers c → ready (world c) h = true) →
  ∀ r c' t, configure_charm c = (r, c', t) →
    init_service_calls t
    = (λ ph, EInitService ph (contexts c))
        <$> List.filter pebble_ready (pebble_handlers c)
    ∧ pebble_handlers c' = init_if_ready (contexts c) <$> pebble_handlers c
    ∧ ((∃ ph, ph ∈ pebble_handlers c' ∧ service_ready ph = false) →
        r = None
        ∧ (∀ x, EBootstrap x ∉ t)
        ∧ (∀ s, ESetStatus s ∉ t)
        ∧ _state c' = _state c
        ∧ unit_status c' = unit_status c
        ∧ world c' = world c).
Proof.
  intros Hall r c' t Hcc.
  assert (Hrel : relation_handlers_ready c = true)
    by by apply handlers_ready_true.
  pose proof (configure_charm_pass_of c) as Hp. rewrite Hcc in Hp.
  pose proof (init_services_handlers c (pebble_handlers c)) as Hphs.
  pose proof (init_services_trace c (pebble_handlers c)) as Htr.
  pose proof (init_service_calls_init_services c (pebble_handlers c)) as Hcalls.
  inversion Hp as [Hn|phs t1 _ Hi Hs|phs t1 _ Hi Hs Hf|phs t1 _ Hi Hs Hf
                   |phs t1 w e _ Hi Hs Hf Hh|phs t1 w _ Hi Hs Hf Hh]; subst;
    [congruence|rewrite Hi in Hphs, Htr, Hcalls; simpl in *; subst phs ..].
  - (* the process gate fails *)
    split; [by rewrite Hcalls, Htr|]. split; [done|]. intros _.
    rewrite Htr. repeat split; try done.
    + intros x Hel. apply list_elem_of_fmap in Hel as (? & ? & _). done.
    + intros s Hel. apply list_elem_of_fmap in Hel as (? & ? & _). done.
  - split; [by rewrite Hcalls, Htr|]. split; [done|].
    intros (ph & Hin & Hnr). rewrite services_ready_true in Hs.
    rewrite (Hs ph Hin) in Hnr. done.
  - rewrite init_service_calls_app, Hcalls, Htr. simpl. rewrite app_nil_r.
    split; [done|]. split; [done|].
    intros (ph & Hin & Hnr). rewrite services_ready_true in Hs.
    rewrite (Hs ph Hin) in Hnr. done.
  - rewrite init_service_calls_app, Hcalls, Htr. simpl. rewrite app_nil_r.
    split; [done|]. split; [done|].
    intros (ph & Hin & Hnr). rewrite services_ready_true in Hs.
    rewrite (Hs ph Hin) in Hnr. done.
  - rewrite init_service_calls_app, Hcalls, Htr. simpl. rewrite app_nil_r.
    split; [done|]. split; [done|].
    intros (ph & Hin & Hnr). rewrite services_ready_true in Hs.
    rewrite (Hs ph Hin) in Hnr. done.
Qed.

(** C2 (at most one bootstrap).  Over any sequence of dispatches, from any
    charm, the invocations of the bootstrap hook are failed ones followed
    by at most one that returns, and nothing after it; with a hook that
    never raises that is at most one invocation in all; a single pass
    invokes the hook at most once; and from a charm whose [bootstrapped]
    flag is true no call invokes the hook, whatever happens in between. *)
Theorem bootstrap_hook_at_most_once (c : Charm) (steps : list Step) :
  retried_until_success (hook_calls (run nonleader_write c steps).2) = true
  ∧ ((∀ w, (_do_bootstrap w).2 = None) →
       (length (hook_calls (run nonleader_write c steps).2) ≤ 1)%nat)
  ∧ (length (hook_calls (configure_charm c).2) ≤ 1)%nat
  ∧ (∀ t1 t2, (run nonleader_write c steps).2 = t1 ++ EBootstrap None :: t2 →
       ∀ x, EBootstrap x ∉ t2)
  ∧ (bootstrapped c = Ok true →
       ∀ x, EBootstrap x ∉ (run nonleader_write c steps).2).
Proof.
  destruct (run_hook nonleader_write c steps) as [Hretried Hset].
  split; [done|]. split; [|split; [|split]].
  - intros Hnever. apply retried_all_returned; [done|].
    intros r Hel. apply hook_calls_elem, run_hook_origin in Hel as [w ->].
    apply Hnever.
  - destruct (configure_charm c) as [[r c'] t] eqn:Hcc. simpl.
    destruct (configure_charm_hook _ _ _ _ Hcc)
      as [[-> _]|[(e & -> & _)|(-> & _)]]; simpl; lia.
  - intros t1 t2 Hsplit x Hel. rewrite Hsplit, hook_calls_app in Hretried.
    simpl in Hretried. apply retried_after_success in Hretried.
    apply hook_calls_elem in Hel. rewrite Hretried in Hel. inversion Hel.
  - intros Hflag x Hel. apply bootstrapped_flag in Hflag.
    destruct (Hset Hflag) as [Hnone _].
    apply hook_calls_elem in Hel. rewrite Hnone in Hel. inversion Hel.
Qed.

(** C3 (bootstrap failure).  If the bootstrap hook raises [e] during a
    pass, the exception comes out of [configure_charm]; the stored state is
    as before the pass, with [bootstrapped] false; the unit status is not
    written; and a later pass that gets through both gates with that stored
    state invokes the hook again. *)
Theorem bootstrap_failure_propagates (c c' : Charm) (r : option exn)
    (t : list Event) (e : exn) :
  configure_charm c = (r, c', t) →
  EBootstrap (Some e) ∈ t →
  r = Some e
  ∧ bootstrapped c' = Ok false
  ∧ _state c' = _state c
  ∧ unit_status c' = unit_status c
  ∧ (∀ s, ESetStatus s ∉ t)
  ∧ (∀ c2 : Charm,
       _state c2 = _state c' →
       (∀ h, h ∈ relation_handlers c2 → ready (world c2) h = true) →
       (∀ ph, ph ∈ pebble_handlers c2 →
          service_ready (init_if_ready (contexts c2) ph) = true) →
       EBootstrap (_do_bootstrap (world c2)).2 ∈ (configure_charm c2).2).
Proof.
  intros Hcc Hel. pose proof (configure_charm_pass_of c) as Hp.
  rewrite Hcc in Hp. apply hook_calls_elem in Hel.
  pose proof (hook_calls_init_services c (pebble_handlers c)) as Hhc.
  inversion Hp as [Hn|phs t1 _ Hi Hs|phs t1 _ Hi Hs Hf|phs t1 _ Hi Hs Hf
                   |phs t1 w e' _ Hi Hs Hf Hh|phs t1 w _ Hi Hs Hf Hh]; subst;
    try (rewrite Hi in Hhc; simpl in Hhc);
    try rewrite hook_calls_app in Hel; try rewrite Hhc in Hel;
    simpl in Hel; try by inversion Hel.
  - apply list_elem_of_singleton in Hel as [= <-].
    split; [done|]. split; [by apply bootstrapped_flag|].
    split; [done|]. split; [done|]. split.
    + intros s Hs'. apply elem_of_app in Hs' as [Hs'|Hs'].
      * pose proof (init_services_trace_elem c (pebble_handlers c) (ESetStatus s)) as Hx.
        rewrite Hi in Hx. destruct (Hx Hs') as (? & ? & _). done.
      * apply list_elem_of_singleton in Hs'. done.
    + intros c2 Hst Hrel Hsvc. simpl in Hst.
      pose proof (configure_charm_pass_of c2) as Hp2.
      assert (Hr2 : relation_handlers_ready c2 = true)
        by by apply handlers_ready_true.
      assert (Hs2 : services_ready (init_services c2 (pebble_handlers c2)).1 = true).
      { rewrite init_services_handlers. apply services_ready_true.
        intros ph Hin. apply list_elem_of_fmap in Hin as (ph0 & -> & Hin). auto. }
      assert (Hf2 : _state c2 !! "bootstrapped" = Some false) by by rewrite Hst.
      destruct (_do_bootstrap (world c2)) as [w2 r2] eqn:Hh2. simpl.
      inversion Hp2 as [Hn|phs2 t2 _ Hi2 Hs2'|phs2 t2 _ Hi2 Hs2' Hf2'
                        |phs2 t2 _ Hi2 Hs2' Hf2'
                        |phs2 t2 w' e' _ Hi2 Hs2' Hf2' Hh2'
                        |phs2 t2 w' _ Hi2 Hs2' Hf2' Hh2'];
        try rewrite Hi2 in Hs2; simpl in *; try congruence.
      * assert (r2 = Some e') as -> by congruence.
        apply elem_of_app. right. by left.
      * assert (r2 = None) as -> by congruence.
        apply elem_of_app. right. by left.
  - apply list_elem_of_singleton in Hel. done.
Qed.

(** C7 (lifecycle of the flag).  [__init__] on a unit with nothing stored
    gives [bootstrapped] false; a pass that starts with the flag false ends
    with it true exactly when all relation handlers are ready, all pebble
    handlers report [service_ready] after the initialisation loop, and the
    bootstrap hook returns; and once the flag is true it stays true through
    any sequence of calls, changes from outside, restarts of the charm
    ([__init__] again) and [leader_set] calls. *)
Theorem bootstrapped_flag_lifecycle :
  (∀ d status w leader pd c,
     __init__ d ∅ status w leader pd = Ok c → bootstrapped c = Ok false)
  ∧ (∀ c r c' t,
       bootstrapped c = Ok false →
       configure_charm c = (r, c', t) →
       (bootstrapped c' = Ok true
        ↔ (∀ h, h ∈ relation_handlers c → ready (world c) h = true)
          ∧ (∀ ph, ph ∈ pebble_handlers c' → service_ready ph = true)
          ∧ (_do_bootstrap (world c)).2 = None))
  ∧ (∀ c steps,
       bootstrapped c = Ok true →
       bootstrapped (run nonleader_write c steps).1 = Ok true).
Proof.
  split; [|split].
  - intros d status w leader pd c Hinit. apply bootstrapped_flag.
    by eapply init_flag_fresh.
  - intros c r c' t Hflag Hcc. apply bootstrapped_flag in Hflag.
    rewrite bootstrapped_flag. unfold flag in Hflag.
    pose proof (configure_charm_pass_of c) as Hp. rewrite Hcc in Hp.
    unfold relation_handlers_ready in Hp.
    inversion Hp as [Hn|phs t1 Hr Hi Hs|phs t1 Hr Hi Hs Hf|phs t1 Hr Hi Hs Hf
                     |phs t1 w e Hr Hi Hs Hf Hh|phs t1 w Hr Hi Hs Hf Hh]; subst;
      try congruence.
    + split; [intros Ht; unfold flag in Ht; congruence|]. intros (Hall & _).
      apply handlers_ready_true in Hall.
      unfold relation_handlers_ready in *. congruence.
    + split; [intros Ht; unfold flag in Ht; simpl in Ht; congruence|].
      intros (_ & Hall & _).
      apply services_ready_true in Hall. simpl in Hall. congruence.
    + split; [intros Ht; unfold flag in Ht; simpl in Ht; congruence|].
      intros (_ & _ & Hnone).
      rewrite Hh in Hnone. done.
    + split; [|intros _; apply flag_finalize]. intros _.
      split; [by apply handlers_ready_true|].
      split; [by apply services_ready_true|]. by rewrite Hh.
  - intros c steps Hflag. apply bootstrapped_flag.
    apply bootstrapped_flag in Hflag.
    by apply (run_hook nonleader_write c steps).
Qed.

(** C6 (idempotence).  Let a call of [configure_charm] converge (it returns
    and sets the active status), let the relation handlers observe the same
    afterwards as before, and let a ready process stay ready when it is
    initialised again with that context.  Then after any number of further
    calls the status is still active, [bootstrapped] is still true, the
    stored state, the world and the relation handlers are as the first call
    left them, and the only events of the further calls are [init_service]
    calls with the context of the first call and writes of the active
    status: no hook invocation, no failure. *)
Theorem configure_charm_idempotent (c c1 : Charm) (t1 : list Event) (n : nat) :
  configure_charm c = (None, c1, t1) →
  ESetStatus ActiveStatus ∈ t1 →
  same_dependency_state (world c) (world c1) →
  (∀ ph, service_ready ph = true →
     service_ready (init_service (contexts c) ph) = true) →
  unit_status c1 = ActiveStatus
  ∧ bootstrapped c1 = Ok true
  ∧ (∀ ph ctx, EInitService ph ctx ∈ t1 → ctx = contexts c)
  ∧ unit_status (run nonleader_write c1 (replicate n Call)).1 = ActiveStatus
  ∧ bootstrapped (run nonleader_write c1 (replicate n Call)).1 = Ok true
  ∧ _state (run nonleader_write c1 (replicate n Call)).1 = _state c1
  ∧ world (run nonleader_write c1 (replicate n Call)).1 = world c1
  ∧ relation_handlers (run nonleader_write c1 (replicate n Call)).1
    = relation_handlers c1
  ∧ (∀ e, e ∈ (run nonleader_write c1 (replicate n Call)).2 →
       (∃ ph, e = EInitService ph (contexts c)) ∨ e = ESetStatus ActiveStatus).
Proof.
  intros Hcc Hact Hsame Hstable.
  pose proof (configure_charm_pass_of c) as Hp. rewrite Hcc in Hp.
  pose proof (init_services_trace_elem c (pebble_handlers c)) as Hinit.
  assert (Hconv : relation_handlers_ready c = true
                  ∧ charm_def c1 = charm_def c
                  ∧ relation_handlers c1 = relation_handlers c
                  ∧ unit_status c1 = ActiveStatus
                  ∧ flag c1 = Some true
                  ∧ services_ready (pebble_handlers c1) = true
                  ∧ ∀ ph ctx, EInitService ph ctx ∈ t1 → ctx = contexts c).
  { inversion Hp as [Hn|phs t0 Hr Hi Hs|phs t0 Hr Hi Hs Hf|phs t0 Hr Hi Hs Hf
                     |phs t0 w e Hr Hi Hs Hf Hh|phs t0 w Hr Hi Hs Hf Hh]; subst;
      try rewrite Hi in Hinit; simpl in Hinit.
    - inversion Hact.
    - destruct (Hinit _ Hact) as (? & ? & _). done.
    - repeat split; try done; try apply flag_finalize.
      intros ph ctx Hel. apply elem_of_app in Hel as [Hel|Hel].
      + destruct (Hinit _ Hel) as (? & [= _ ->] & _). done.
      + apply list_elem_of_singleton in Hel. done.
    - repeat split; try done; try apply flag_finalize.
      intros ph ctx Hel. apply elem_of_app in Hel as [Hel|Hel].
      + destruct (Hinit _ Hel) as (? & [= _ ->] & _). done.
      + apply elem_of_cons in Hel as [Hel|Hel]; [done|].
        apply list_elem_of_singleton in Hel. done. }
  destruct Hconv as (Hrel & Hd & Hh & Hus & Hflag & Hsv & Hctxs).
  assert (Hctx : contexts c1 = contexts c) by by apply contexts_same.
  assert (Hrel1 : relation_handlers_ready c1 = true).
  { unfold relation_handlers_ready in *.
    by rewrite Hh, (handlers_ready_same (world c)). }
  assert (Hstable1 : ∀ ph, service_ready ph = true →
            service_ready (init_service (contexts c1) ph) = true)
    by by rewrite Hctx.
  assert (Hlike : converged_like c1 c1) by by repeat split.
  destruct (converged_run nonleader_write c1 c1 n Hrel1 Hflag Hstable1 Hlike)
    as [(_ & Hh' & Hw' & Hst' & Hus' & _) Hev].
  split; [done|]. split; [by apply bootstrapped_flag|]. split; [done|].
  split; [done|]. split.
  { apply bootstrapped_flag. unfold flag. by rewrite Hst'. }
  split; [done|]. split; [done|]. split; [done|].
  intros e Hel. rewrite <- Hctx. by apply Hev.
Qed.

End EngineClaims.

(** C4 (manifest filtering).  For a relation name [R] that the metadata of
    the charm does not declare: [can_add_handler] answers false whatever
    the handlers so far; a handler for [R] in the list that
    [get_relation_handlers] returns was passed in by the caller, not
    constructed, and the charm that [__init__] builds has none; and
    [contexts] gives the same context as if the handlers for [R] were not
    in [relation_handlers], whatever they report as readiness and whatever
    the collaborators. *)
Theorem undeclared_relation_is_filtered (d : CharmDef) (R : string) :
  R ∉ dom (meta_relations d) →
  (∀ hs, can_add_handler d R hs = false)
  ∧ (∀ hs attrs b h,
       get_relation_handlers d hs attrs = Ok b →
       h ∈ b.1 → relation_name h = R → h ∈ list_or_nil hs)
  ∧ (∀ (Collab : Collaborators) stored status w leader pd c h,
       __init__ d stored status w leader pd = Ok c →
       h ∈ relation_handlers c → relation_name h ≠ R)
  ∧ (∀ (Collab : Collaborators) (c : Charm),
       charm_def c = d →
       contexts c
       = contexts (with_relation_handlers
                     (filter (λ h, relation_name h ≠ R) (relation_handlers c)) c)).
Proof.
  intros HR. repeat split.
  - intros hs. unfold can_add_handler.
    by rewrite bool_decide_eq_false_2.
  - intros hs attrs b h Hget Hin Hname.
    destruct (get_relation_handlers_declared _ _ _ _ Hget h Hin) as [|Hdecl];
      [done|]. by rewrite Hname in Hdecl.
  - intros Collab stored status w leader pd c h. unfold __init__.
    destruct (get_relation_handlers d None no_attrs) as [b|e] eqn:Hget;
      simpl; [|done].
    intros [= <-] Hin Hname. simpl in Hin.
    destruct (get_relation_handlers_declared _ _ _ _ Hget h Hin) as [Hnil|Hdecl].
    + inversion Hnil.
    + by rewrite Hname in Hdecl.
  - intros Collab c <-. unfold contexts. simpl.
    by rewrite add_ready_handlers_drop.
Qed.

Lemma configure_charm_dependency_gate_witness :
  Sample.amqp_handler ∈ relation_handlers Sample.waiting
  ∧ configure_charm Sample.waiting = (None, Sample.waiting, []).
Proof.
  split; [by left|].
  apply (configure_charm_dependency_gate Sample.waiting Sample.amqp_handler).
  - by left.
  - reflexivity.
Defined.

Lemma undeclared_relation_is_filtered_witness :
("shared-db" ∉ dom (meta_relations Sample.glance))
  ∧ can_add_handler Sample.glance "shared-db" [] = false
  ∧ contexts Sample.stale = ["amqp"; "peers"; "options"].
Proof.
  assert (H : "shared-db" ∉ dom (meta_relations Sample.glance))
    by (eapply bool_decide_eq_false_1; vm_compute; reflexivity).
  split; [exact H|]. split.
  - apply (undeclared_relation_is_filtered Sample.glance "shared-db" H).
  - destruct (undeclared_relation_is_filtered Sample.glance "shared-db" H)
      as (_ & _ & _ & Hctx).
    rewrite (Hctx Sample.collab Sample.stale eq_refl). vm_compute. reflexivity.
Defined.

Lemma configure_charm_initialises_reachable_witness :
  init_service_calls (configure_charm Sample.half_ready).2
  = [EInitService (Collab := Sample.collab) (Sample.container true false)
       ["amqp"; "peers"; "options"]].
Proof.
  destruct (configure_charm Sample.half_ready) as [[r c'] t] eqn:Hcc.
  destruct (configure_charm_initialises_reachable Sample.half_ready) with r c' t
    as (Hcalls & _); [|exact Hcc|].
  - intros h Hin. vm_compute in Hin.
    apply elem_of_cons in Hin as [->|Hin]; [reflexivity|].
    apply elem_of_cons in Hin as [->|Hin]; [reflexivity|]. inversion Hin.
  - simpl. rewrite Hcalls. reflexivity.
Defined.

Lemma bootstrap_hook_at_most_once_witness :
  bootstrapped (run None Sample.converging [Call]).1 = Ok true
  ∧ hook_calls (run None Sample.failing
                  [Call; Call; Outside Sample.converging; Call; Call; Call]).2
    = [Some (Exception "bootstrap failed"); Some (Exception "bootstrap failed");
       None]
  ∧ ∀ x, EBootstrap x ∉ (run None (run None Sample.converging [Call]).1
                           [Outside Sample.converging; Call; Call]).2.
Proof.
  assert (H : bootstrapped (run None Sample.converging [Call]).1 = Ok true)
    by (vm_compute; reflexivity).
  split; [exact H|]. split; [vm_compute; reflexivity|].
  apply (bootstrap_hook_at_most_once None
           (run None Sample.converging [Call]).1
           [Outside Sample.converging; Call; Call]).
  exact H.
Defined.

Lemma bootstrap_failure_propagates_witness :
  (configure_charm Sample.failing).1.1 = Some (Exception "bootstrap failed")
  ∧ bootstrapped (configure_charm Sample.failing).1.2 = Ok false.
Proof.
  destruct (configure_charm Sample.failing) as [[r c'] t] eqn:Hcc.
  destruct (bootstrap_failure_propagates Sample.failing c' r t
              (Exception "bootstrap failed") Hcc) as (Hr & Hflag & _).
  - vm_compute in Hcc. injection Hcc as <- <- <-.
    apply elem_of_cons. right. by left.
  - done.
Defined.

Lemma bootstrapped_flag_lifecycle_witness :
  bootstrapped Sample.converging = Ok false
  ∧ bootstrapped (configure_charm Sample.converging).1.2 = Ok true
  ∧ bootstrapped
      (run None (configure_charm Sample.converging).1.2
         [Outside Sample.waiting; Call; Restart Sample.glance; Call]).1
    = Ok true.
Proof.
  assert (H : bootstrapped (configure_charm Sample.converging).1.2 = Ok true)
    by (vm_compute; reflexivity).
  split; [reflexivity|]. split; [exact H|].
  destruct (bootstrapped_flag_lifecycle (Collab := Sample.collab) None)
    as (_ & _ & Hkeep).
  apply Hkeep. exact H.
Defined.

Lemma configure_charm_idempotent_witness :
  unit_status (run None (configure_charm Sample.converging).1.2
                 (replicate 3 Call)).1 = ActiveStatus
  ∧ _state (run None (configure_charm Sample.converging).1.2
              (replicate 3 Call)).1
    = _state (configure_charm Sample.converging).1.2.
Proof.
  destruct (configure_charm Sample.converging) as [[r c1] t1] eqn:Hcc.
  assert (Hr : r = None) by (vm_compute in Hcc; congruence).
  subst r.
  destruct (configure_charm_idempotent None Sample.converging c1 t1 3 Hcc)
    as (_ & _ & _ & Hus & _ & Hst & _).
  - vm_compute in Hcc. injection Hcc as <- <-.
    apply elem_of_cons. right. apply elem_of_cons. right. by left.
  - vm_compute in Hcc. injection Hcc as <- <-. by split.
  - intros ph _. reflexivity.
  - simpl. by split.
Defined.

(** * Peer data and the shared-db requirer *)

(** C8 (leadership).  With the peers handler present: on a unit that is not
    the leader, [leader_set] is refused or ignored and leaves the charm,
    hence the peer data, as it was, while [leader_get] returns what the
    peer data holds; on the leader the write takes effect.  Likewise
    [request_access] of the shared-db requirer writes the relation data
    only on the leader and does nothing on another unit. *)
Theorem peer_writes_need_leadership `{Collab : Collaborators}
    (nonleader_write : option exn) (json_dumps : list string → string)
    (c : Charm) (h : RelationHandler) (key value : string) :
  peers (handler_attrs c) = Some h →
  (is_leader c = false →
     leader_set nonleader_write c key value = (nonleader_write, c)
     ∧ ∀ k, leader_get (leader_set nonleader_write c key value).2 k
            = Ok (peer_app_data c !! k))
  ∧ (is_leader c = true →
       (leader_set nonleader_write c key value).1 = None
       ∧ leader_get (leader_set nonleader_write c key value).2 key
         = Ok (Some value)
       ∧ ∀ k, k ≠ key →
           leader_get (leader_set nonleader_write c key value).2 k
           = Ok (peer_app_data c !! k))
  ∧ (∀ self dbs st,
       SharedDB.unit_is_leader st = false →
       SharedDB.request_access json_dumps self dbs st = (Ok tt, st))
  ∧ (∀ self dbs st d,
       SharedDB.unit_is_leader st = true →
       SharedDB.app_data st = Some d →
       SharedDB.request_access json_dumps self (SharedDB.VStrList dbs) st
       = (Ok tt, SharedDB.with_app_data (<["databases" := json_dumps dbs]> d) st)).
Proof.
  intros Hpeers. split; [|split; [|split]].
  - intros Hlead. unfold leader_set, leader_get, set_app_data.
    rewrite Hpeers, Hlead. simpl. destruct c; simpl in *.
    split; [done|]. intros k. by rewrite Hpeers.
  - intros Hlead. unfold leader_set, leader_get, set_app_data, get_app_data.
    rewrite Hpeers, Hlead. simpl. rewrite Hpeers.
    split; [done|]. split.
    + by rewrite lookup_insert_eq.
    + intros k Hne. by rewrite lookup_insert_ne.
  - intros self dbs st Hlead. unfold SharedDB.request_access. by rewrite Hlead.
  - intros self dbs st d Hlead Hd. unfold SharedDB.request_access.
    rewrite Hlead. unfold SharedDB.write_app_data. by rewrite Hd.
Qed.

Lemma peer_writes_need_leadership_witness :
  leader_set (Some RelationDataError) Sample.waiting "password" "s3cret"
  = (Some RelationDataError, Sample.waiting)
  ∧ leader_get (leader_set None Sample.converging "password" "s3cret").2 "password"
    = Ok (Some "s3cret").
Proof.
  split.
  - apply (peer_writes_need_leadership (Some RelationDataError) (λ _, "[]")
             Sample.waiting Sample.peers_handler "password" "s3cret");
      reflexivity.
  - apply (peer_writes_need_leadership None (λ _, "[]")
             Sample.converging Sample.peers_handler "password" "s3cret");
      reflexivity.
Defined.

Section SharedDBClaims.
Import SharedDB.
Variable json_dumps : list string → string.

(** C9.  The handler observed for [relation_joined] is the second
    definition of [_on_database_relation_joined].  On every join it emits
    [connected] and then raises: evaluating [self.username] fails, the
    class, its base and [__init__] defining no such attribute, so nothing
    is written to the relation.  Were the attribute there, the call would
    still raise, [request_access] taking one argument and being given
    two. *)
Theorem joined_handler_always_raises (relation_name : string)
    (databases : list string) (st : St) :
  class_dict !! "_on_database_relation_joined" = Some (Function JoinedSecond)
  ∧ (new_instance relation_name databases !! "username" = None
     ∧ class_dict !! "username" = None
     ∧ object_dict !! "username" = None)
  ∧ on_event json_dumps relation_name databases RelationJoined st
    = (Raise (AttributeError "username"), with_emitted Connected st)
  ∧ (∀ username,
       call json_dumps recursion_limit JoinedSecond
         (<["username" := username]> (new_instance relation_name databases))
         [VObject "event"] st
       = (Raise (TypeError "wrong number of positional arguments"),
          with_emitted Connected st))
  ∧ arity RequestAccess = 1.
Proof.
  split; [by vm_compute|]. split; [by vm_compute|].
  split; [by vm_compute|]. split; [|done].
  intros username. by vm_compute.
Qed.

(** C10.  On every [relation_changed] and every [relation_departed] the
    handler raises when it evaluates [self.password], an attribute that
    neither [__init__], nor the class, nor its base defines; the state is
    left as it was, so [ready] is not emitted. *)
Theorem changed_handler_always_raises (relation_name : string)
    (databases : list string) (st : St) :
  (new_instance relation_name databases !! "password" = None
   ∧ class_dict !! "password" = None
   ∧ object_dict !! "password" = None)
  ∧ on_event json_dumps relation_name databases RelationChanged st
    = (Raise (AttributeError "password"), st)
  ∧ on_event json_dumps relation_name databases RelationDeparted st
    = (Raise (AttributeError "password"), st).
Proof.
  split; [by vm_compute|]. split; by vm_compute.
Qed.

End SharedDBClaims.

(** * Further properties of the code *)

(** ** Handler construction *)

Lemma ends_with_refl suf : ends_with suf suf = true.
Proof. destruct suf; cbn [ends_with]; by rewrite String.eqb_refl. Qed.

Lemma ends_with_append suf s : ends_with suf (s +:+ suf) = true.
Proof.
  induction s as [|a s IH]; [apply ends_with_refl|].
  change (String a s +:+ suf) with (String a (s +:+ suf)).
  cbn [ends_with]. destruct (String.eqb _ _); [done|]. apply IH.
Qed.

Lemma db_name_neq s n : ends_with "-db" n = false → s +:+ "-db" ≠ n.
Proof.
  intros Hn Heq. by rewrite <- Heq, ends_with_append in Hn.
Qed.

Lemma string_length_app s t :
  String.length (s +:+ t) = (String.length s + String.length t)%nat.
Proof. induction s as [|a s IH]; simpl; [done|]. by rewrite IH. Qed.

Lemma string_app_cancel_r s1 s2 t : s1 +:+ t = s2 +:+ t → s1 = s2.
Proof.
  revert s2. induction s1 as [|a s1 IH]; intros [|b s2] H.
  - done.
  - apply (f_equal String.length) in H.
    rewrite !string_length_app in H. simpl in H. lia.
  - apply (f_equal String.length) in H.
    rewrite !string_length_app in H. simpl in H. lia.
  - simpl in H. injection H as -> H. f_equal. by apply IH.
Qed.

Lemma can_add_handler_spec d n hs :
  can_add_handler d n hs = true
  ↔ n ∈ dom (meta_relations d) ∧ n ∉ relation_name <$> hs.
Proof.
  split.
  - intros H. split; [by eapply can_add_handler_declared
                     |by eapply can_add_handler_fresh].
  - intros [Hd Hf]. unfold can_add_handler.
    rewrite bool_decide_eq_true_2 by done. simpl.
    by rewrite bool_decide_eq_false_2.
Qed.

Lemma list_or_nil_some {A} (l : list A) : list_or_nil (Some l) = l.
Proof. by destruct l. Qed.

(** [get_relation_handlers] is a sequence of guarded additions. *)
Lemma base_get_relation_handlers_eq d hs attrs :
  base_get_relation_handlers d hs attrs
  = let b0 : Building := (list_or_nil hs, attrs) in
    if can_add_handler d "ingress"
         (foldl (try_add d) b0 (take 3 (base_candidates d 0))).1
    then port ← default_public_ingress_port d;
         Ok (foldl (try_add d) b0 (base_candidates d port))
    else Ok (foldl (try_add d) b0
               (base_candidates d (default 0%Z (ingress_port_override d)))).
Proof.
  unfold base_get_relation_handlers, try_add. simpl.
  destruct (can_add_handler d "ingress" _) eqn:Hing; simpl; [|done].
  by destruct (default_public_ingress_port d).
Qed.

Lemma base_get_relation_handlers_fold d hs attrs b :
  base_get_relation_handlers d hs attrs = Ok b →
  b = foldl (try_add d) (list_or_nil hs, attrs)
        (base_candidates d (default 0%Z (ingress_port_override d))).
Proof.
  rewrite base_get_relation_handlers_eq. cbv zeta.
  destruct (can_add_handler d "ingress" _); [|by intros [= <-]].
  unfold default_public_ingress_port.
  destruct (ingress_port_override d) as [p|]; simpl.
  - by intros [= <-].
  - by destruct (charm_class d).
Qed.

Lemma get_relation_handlers_fold d hs attrs b :
  get_relation_handlers d hs attrs = Ok b →
  b = foldl (try_add d) (list_or_nil hs, attrs) (candidates d).
Proof.
  unfold get_relation_handlers, candidates.
  destruct (charm_class d); [apply base_get_relation_handlers_fold|].
  unfold api_get_relation_handlers. cbn [foldl]. unfold try_add at 2.
  cbn [fst snd relation_name].
  destruct (can_add_handler d "identity-service" _); simpl.
  - destruct (config d !! "region"); simpl; [|done].
    intros H. apply base_get_relation_handlers_fold in H.
    by rewrite list_or_nil_some in H.
  - intros H. apply base_get_relation_handlers_fold in H.
    by rewrite list_or_nil_some in H.
Qed.

Lemma try_add_names d b c n :
  n ∈ relation_name <$> (try_add d b c).1
  ↔ n ∈ relation_name <$> b.1
    ∨ (n = relation_name c.2 ∧ n ∈ dom (meta_relations d)).
Proof.
  unfold try_add.
  destruct (can_add_handler d (relation_name c.2) b.1) eqn:Hcan.
  - apply can_add_handler_spec in Hcan as [Hd Hf]. simpl.
    rewrite fmap_app, elem_of_app. simpl. rewrite list_elem_of_singleton.
    naive_solver.
  - split; [by left|]. intros [?|[-> Hd]]; [done|].
    destruct (decide (relation_name c.2 ∈ relation_name <$> b.1)); [done|].
    rewrite (proj2 (can_add_handler_spec _ _ _)) in Hcan; done.
Qed.

Lemma foldl_try_add_names d cands b n :
  n ∈ relation_name <$> (foldl (try_add d) b cands).1
  ↔ n ∈ relation_name <$> b.1
    ∨ (n ∈ (λ c : Candidate, relation_name c.2) <$> cands
       ∧ n ∈ dom (meta_relations d)).
Proof.
  revert b. induction cands as [|c cands IH]; intros b; simpl.
  - split; [by left|]. intros [?|[H _]]; [done|]. inversion H.
  - rewrite IH, try_add_names, elem_of_cons. naive_solver.
Qed.

Lemma try_add_prefix d b c : b.1 `prefix_of` (try_add d b c).1.
Proof.
  unfold try_add. destruct (can_add_handler _ _ _); [|done].
  simpl. by apply prefix_app_r.
Qed.

Lemma foldl_try_add_prefix d cands b :
  b.1 `prefix_of` (foldl (try_add d) b cands).1.
Proof.
  revert b. induction cands as [|c cands IH]; intros b; simpl; [done|].
  etrans; [apply try_add_prefix|apply IH].
Qed.

Lemma try_add_NoDup d b c :
  NoDup (relation_name <$> b.1) → NoDup (relation_name <$> (try_add d b c).1).
Proof.
  intros Hnd. unfold try_add.
  destruct (can_add_handler d (relation_name c.2) b.1) eqn:Hcan; [|done].
  apply can_add_handler_spec in Hcan as [_ Hf]. simpl.
  rewrite fmap_app. apply NoDup_app. split; [done|]. split.
  - intros x Hx Hin. apply list_elem_of_singleton in Hin as ->. done.
  - apply NoDup_singleton.
Qed.

Lemma foldl_try_add_NoDup d cands b :
  NoDup (relation_name <$> b.1) →
  NoDup (relation_name <$> (foldl (try_add d) b cands).1).
Proof.
  revert b. induction cands as [|c cands IH]; intros b Hnd; simpl; [done|].
  by apply IH, try_add_NoDup.
Qed.

Lemma candidates_names d :
  (λ c : Candidate, relation_name c.2) <$> candidates d = candidate_names d.
Proof. unfold candidates, candidate_names. by destruct (charm_class d). Qed.

(** X1.  The handler list never holds two handlers for one relation: if the
    handlers passed in have distinct relation names, so have the handlers
    returned; and the handlers passed in stay at the front, in order. *)
Theorem relation_handlers_unique (d : CharmDef)
    (hs : option (list RelationHandler)) (attrs : HandlerAttrs) (b : Building) :
  NoDup (relation_name <$> list_or_nil hs) →
  get_relation_handlers d hs attrs = Ok b →
  NoDup (relation_name <$> b.1) ∧ list_or_nil hs `prefix_of` b.1.
Proof.
  intros Hnd Hget. apply get_relation_handlers_fold in Hget as ->. split.
  - by apply foldl_try_add_NoDup.
  - apply (foldl_try_add_prefix d (candidates d) (list_or_nil hs, attrs)).
Qed.

(** X2.  Called as [__init__] calls it, [get_relation_handlers] returns a
    handler for a relation name exactly when the name is one the class
    knows ([amqp], [<service>-db], [shared-db], [ingress], [peers], and
    [identity-service] for the API class) and the metadata declares it. *)
Theorem relation_handlers_are_declared_candidates (d : CharmDef)
    (attrs : HandlerAttrs) (b : Building) (n : string) :
  get_relation_handlers d None attrs = Ok b →
  (n ∈ relation_name <$> b.1
   ↔ n ∈ candidate_names d ∧ n ∈ dom (meta_relations d)).
Proof.
  intros Hget. apply get_relation_handlers_fold in Hget as ->.
  rewrite foldl_try_add_names, candidates_names. simpl.
  split; [|by right]. intros [H|H]; [inversion H|done].
Qed.

Lemma can_add_handler_fresh_eq d n hs :
  n ∉ relation_name <$> hs →
  can_add_handler d n hs = bool_decide (n ∈ dom (meta_relations d)).
Proof.
  intros Hf. unfold can_add_handler. rewrite (bool_decide_eq_false_2 _ Hf).
  by destruct (bool_decide _).
Qed.

(** The handlers before [ingress] never take its name. *)
Lemma ingress_can_add d pre attrs :
  (∀ n, n ∈ relation_name <$> pre → n = "identity-service") →
  can_add_handler d "ingress"
    (foldl (try_add d) (pre, attrs) (take 3 (base_candidates d 0))).1
  = bool_decide ("ingress" ∈ dom (meta_relations d)).
Proof.
  intros Hpre. apply can_add_handler_fresh_eq.
  rewrite foldl_try_add_names. simpl. intros [Hin|[Hin _]].
  - by apply Hpre in Hin.
  - apply elem_of_cons in Hin as [?|Hin]; [done|].
    apply elem_of_cons in Hin as [Heq|Hin].
    + symmetry in Heq. by apply db_name_neq in Heq.
    + apply list_elem_of_singleton in Hin. done.
Qed.

(** When the base method returns and what it raises otherwise. *)
Lemma base_get_relation_handlers_outcome d pre attrs :
  (∀ n, n ∈ relation_name <$> pre → n = "identity-service") →
  match base_get_relation_handlers d (Some pre) attrs with
  | Ok b =>
      ("ingress" ∈ dom (meta_relations d) → is_Some (ingress_port_override d))
      ∧ b = foldl (try_add d) (pre, attrs)
              (base_candidates d (default 0%Z (ingress_port_override d)))
  | Raise e =>
      "ingress" ∈ dom (meta_relations d)
      ∧ ingress_port_override d = None
      ∧ e = match charm_class d with
            | OSBaseOperatorCharm => AttributeError "default_public_ingress_port"
            | OSBaseOperatorAPICharm => NotImplementedError
            end
  end.
Proof.
  intros Hpre. rewrite base_get_relation_handlers_eq. cbv zeta.
  rewrite list_or_nil_some, ingress_can_add by done.
  case_bool_decide as Hing.
  - unfold default_public_ingress_port.
    destruct (ingress_port_override d) as [p|]; simpl.
    + split; [by eauto|done].
    + by destruct (charm_class d).
  - split; [by intros ?|done].
Qed.

Lemma base_get_relation_handlers_none d attrs :
  base_get_relation_handlers d None attrs
  = base_get_relation_handlers d (Some []) attrs.
Proof. done. Qed.

(** X3.  What [get_relation_handlers] (called as [__init__] calls it)
    raises.  For the API class with [identity-service] declared and no
    [region] in the configuration it raises [KeyError]; failing that, with
    [ingress] declared and [default_public_ingress_port] not overridden it
    raises [NotImplementedError] for the API class and [AttributeError] for
    the base class; in all other cases it returns. *)
Theorem get_relation_handlers_errors (d : CharmDef) (attrs : HandlerAttrs) :
  match get_relation_handlers d None attrs with
  | Raise e =>
      (charm_class d = OSBaseOperatorAPICharm
       ∧ "identity-service" ∈ dom (meta_relations d)
       ∧ config d !! "region" = None
       ∧ e = KeyError "region")
      ∨ (¬ (charm_class d = OSBaseOperatorAPICharm
            ∧ "identity-service" ∈ dom (meta_relations d)
            ∧ config d !! "region" = None)
         ∧ "ingress" ∈ dom (meta_relations d)
         ∧ ingress_port_override d = None
         ∧ e = match charm_class d with
               | OSBaseOperatorCharm => AttributeError "default_public_ingress_port"
               | OSBaseOperatorAPICharm => NotImplementedError
               end)
  | Ok _ =>
      ("ingress" ∈ dom (meta_relations d) → is_Some (ingress_port_override d))
      ∧ (charm_class d = OSBaseOperatorAPICharm →
         "identity-service" ∈ dom (meta_relations d) →
         is_Some (config d !! "region"))
  end.
Proof.
  unfold get_relation_handlers. destruct (charm_class d) eqn:Hclass.
  - rewrite base_get_relation_handlers_none.
    pose proof (base_get_relation_handlers_outcome d [] attrs) as Hb.
    rewrite Hclass in Hb.
    destruct (base_get_relation_handlers d (Some []) attrs) as [b|e].
    + destruct Hb as [Hing _]; [by intros n Hn; inversion Hn|]. done.
    + destruct Hb as (Hing & Hport & ->); [by intros n Hn; inversion Hn|].
      right. split; [|done]. by intros ([=] & _).
  - unfold api_get_relation_handlers. cbn [fst snd list_or_nil].
    rewrite can_add_handler_fresh_eq by (intros Hn; inversion Hn).
    case_bool_decide as Hid; simpl.
    + destruct (config d !! "region") as [region|] eqn:Hregion; simpl.
      * match goal with
        | |- context [base_get_relation_handlers _ (Some ?pre) ?a] =>
            pose proof (base_get_relation_handlers_outcome d pre a) as Hb;
            rewrite Hclass in Hb;
            destruct (base_get_relation_handlers d (Some pre) a) as [b|e]
        end.
        -- destruct Hb as [Hing _].
           { intros n Hn. by apply list_elem_of_singleton in Hn. }
           split; [done|]. by eauto.
        -- destruct Hb as (Hing & Hport & ->).
           { intros n Hn. by apply list_elem_of_singleton in Hn. }
           right. split; [|done]. by intros (_ & _ & [=]).
      * left. done.
    + pose proof (base_get_relation_handlers_outcome d [] attrs) as Hb.
      rewrite Hclass in Hb.
      destruct (base_get_relation_handlers d (Some []) attrs) as [b|e].
      * destruct Hb as [Hing _]; [by intros n Hn; inversion Hn|]. done.
      * destruct Hb as (Hing & Hport & ->); [by intros n Hn; inversion Hn|].
        right. split; [|done]. by intros (_ & ? & _).
Qed.

Lemma foldl_try_add_prepend d pre cands l a a' :
  (∀ c : Candidate, c ∈ cands → relation_name c.2 ∉ relation_name <$> pre) →
  (foldl (try_add d) (pre ++ l, a) cands).1
  = pre ++ (foldl (try_add d) (l, a') cands).1.
Proof.
  revert l a a'. induction cands as [|c cands IH]; intros l a a' Hfresh;
    simpl; [done|].
  assert (Hc : relation_name c.2 ∉ relation_name <$> pre)
    by (apply Hfresh; by left).
  assert (Hcan : can_add_handler d (relation_name c.2) (pre ++ l)
                 = can_add_handler d (relation_name c.2) l).
  { unfold can_add_handler. destruct (negb _); [done|].
    rewrite (bool_decide_ext (relation_name c.2 ∈ relation_name <$> pre ++ l)
               (relation_name c.2 ∈ relation_name <$> l)); [done|].
    rewrite fmap_app, elem_of_app. naive_solver. }
  unfold try_add at 2 4. simpl. rewrite Hcan.
  destruct (can_add_handler d (relation_name c.2) l); simpl.
  - unfold add_handler. simpl. rewrite <- (assoc_L (++)).
    apply IH. intros c' Hc'. apply Hfresh. by right.
  - apply IH. intros c' Hc'. apply Hfresh. by right.
Qed.

(** X4.  The handler list of the API class is the list of the base class
    with the identity-service handler, when that relation is declared, put
    in front. *)
Theorem api_handlers_prepend_identity (d : CharmDef) (attrs : HandlerAttrs)
    (b : Building) :
  charm_class d = OSBaseOperatorAPICharm →
  get_relation_handlers d None attrs = Ok b →
  ∃ b', base_get_relation_handlers d None attrs = Ok b'
        ∧ b.1 = (if bool_decide ("identity-service" ∈ dom (meta_relations d))
                 then [IdentityServiceRequiresHandler "identity-service"
                         (service_endpoints d)
                         (default EmptyString (config d !! "region"))]
                 else []) ++ b'.1.
Proof.
  intros Hclass Hget.
  pose proof (get_relation_handlers_fold _ _ _ _ Hget) as Hb.
  unfold get_relation_handlers in Hget. rewrite Hclass in Hget.
  unfold candidates in Hb. rewrite Hclass in Hb.
  assert (Hport : "ingress" ∈ dom (meta_relations d) →
                  is_Some (ingress_port_override d)).
  { unfold api_get_relation_handlers in Hget.
    destruct (can_add_handler d "identity-service" _); simpl in Hget.
    - destruct (config d !! "region"); simpl in Hget; [|done].
      match type of Hget with
      | base_get_relation_handlers _ (Some ?pre) ?a = _ =>
          pose proof (base_get_relation_handlers_outcome d pre a) as Ho
      end.
      rewrite Hget in Ho. apply Ho.
      intros n Hn. by apply list_elem_of_singleton in Hn.
    - pose proof (base_get_relation_handlers_outcome d [] attrs) as Ho.
      change (list_or_nil None) with (@nil RelationHandler) in Hget.
      rewrite Hget in Ho. apply Ho. intros n Hn. inversion Hn. }
  pose proof (base_get_relation_handlers_outcome d [] attrs) as Hbase.
  rewrite base_get_relation_handlers_none.
  destruct (base_get_relation_handlers d (Some []) attrs) as [b'|e].
  - destruct Hbase as [_ ->]; [by intros n Hn; inversion Hn|].
    eexists. split; [done|]. rewrite Hb. cbn [foldl].
    unfold try_add at 2. cbn [fst snd relation_name list_or_nil].
    rewrite can_add_handler_fresh_eq by (intros Hn; inversion Hn).
    case_bool_decide as Hid; [|done].
    unfold add_handler. cbn [fst snd].
    rewrite <- (app_nil_r ([] ++ [_])).
    erewrite foldl_try_add_prepend; [done|].
    intros c Hc Hin. apply list_elem_of_singleton in Hin.
    simpl in Hc. repeat (apply elem_of_cons in Hc as [->|Hc]); simpl in Hin;
      try done; [|by inversion Hc].
    by apply db_name_neq in Hin.
  - destruct Hbase as (Hing & Hnone & _); [by intros n Hn; inversion Hn|].
    destruct (Hport Hing) as [p Hp]. congruence.
Qed.

(** An attribute that the candidates [cs] do not set is left alone. *)
Lemma foldl_try_add_frame d (proj : HandlerAttrs → option RelationHandler)
    (cs : list Candidate) (b : Building) :
  (∀ c : Candidate, c ∈ cs → ∀ h a, proj (c.1 h a) = proj a) →
  proj (foldl (try_add d) b cs).2 = proj b.2.
Proof.
  revert b. induction cs as [|c cs IH]; intros b Hframe; simpl; [done|].
  rewrite IH by (intros c' Hc'; apply Hframe; by right).
  unfold try_add. destruct (can_add_handler _ _ _); [|done].
  simpl. apply Hframe. by left.
Qed.

Lemma candidates_split_peers d :
  ∃ cs, candidates d = cs ++ [(set_peers, BasePeerHandler "peers")]
        ∧ (∀ c : Candidate, c ∈ cs → ∀ h a, peers (c.1 h a) = peers a)
        ∧ "peers" ∉ (λ c : Candidate, relation_name c.2) <$> cs.
Proof.
  unfold candidates, base_candidates.
  destruct (charm_class d).
  - eexists [_; _; _; _]. split; [done|]. split.
    + intros c Hc h a.
      repeat (apply elem_of_cons in Hc as [->|Hc]); try done. inversion Hc.
    + simpl. intros Hin.
      repeat (apply elem_of_cons in Hin as [Heq|Hin]); try done;
        [|inversion Hin].
      symmetry in Heq. by apply db_name_neq in Heq.
  - eexists [_; _; _; _; _]. split; [done|]. split.
    + intros c Hc h a.
      repeat (apply elem_of_cons in Hc as [->|Hc]); try done. inversion Hc.
    + simpl. intros Hin.
      repeat (apply elem_of_cons in Hin as [Heq|Hin]); try done;
        [|inversion Hin].
      symmetry in Heq. by apply db_name_neq in Heq.
Qed.

Lemma get_relation_handlers_peers d attrs b :
  get_relation_handlers d None attrs = Ok b →
  peers b.2 = if bool_decide ("peers" ∈ dom (meta_relations d))
              then Some (BasePeerHandler "peers") else peers attrs.
Proof.
  intros Hget. apply get_relation_handlers_fold in Hget as ->.
  destruct (candidates_split_peers d) as (cs & -> & Hframe & Hfresh).
  rewrite foldl_app. cbn [foldl].
  set (b4 := foldl (try_add d) (list_or_nil None, attrs) cs).
  assert (Hp4 : peers b4.2 = peers attrs)
    by exact (foldl_try_add_frame d peers cs (list_or_nil None, attrs) Hframe).
  unfold try_add. cbn [fst snd relation_name].
  rewrite can_add_handler_fresh_eq.
  - by case_bool_decide.
  - unfold b4. rewrite foldl_try_add_names. simpl.
    intros [Hin|[Hin _]]; [inversion Hin|done].
Qed.

Section PeersAttribute.
Context `{Collab : Collaborators}.
Variable nonleader_write : option exn.

(** X6.  On a charm built by [__init__], [leader_get] and [leader_set]
    work exactly when the metadata declares the [peers] relation: then
    [leader_get] returns what the peer data holds; otherwise both raise
    [AttributeError] (there is no [self.peers]) and change nothing. *)
Theorem leader_data_needs_peers_relation (d : CharmDef)
    (stored : gmap string bool) (status : Status) (w : World) (leader : bool)
    (pd : gmap string string) (c : Charm) (key value : string) :
  __init__ d stored status w leader pd = Ok c →
  if bool_decide ("peers" ∈ dom (meta_relations d))
  then leader_get c key = Ok (pd !! key)
       ∧ (leader_set nonleader_write c key value).1
         = (if leader then None else nonleader_write)
  else leader_get c key = Raise (AttributeError "peers")
       ∧ leader_set nonleader_write c key value
         = (Some (AttributeError "peers"), c).
Proof.
  unfold __init__.
  destruct (get_relation_handlers d None no_attrs) as [b|e] eqn:Hget;
    simpl; [|done].
  intros [= <-]. apply get_relation_handlers_peers in Hget.
  unfold leader_get, leader_set, set_app_data. simpl. rewrite Hget.
  case_bool_decide; simpl; [|done].
  split; [done|]. by destruct leader.
Qed.

End PeersAttribute.

Lemma db_name_shared s : s +:+ "-db" = "shared-db" ↔ s = "shared".
Proof.
  split; [|by intros ->].
  intros H. by apply (string_app_cancel_r s "shared" "-db").
Qed.

Lemma candidates_split_db d :
  ∃ cs,
    candidates d
    = cs ++ [(set_db, DBHandler (service_name d +:+ "-db"));
             (set_db, SharedDBHandler "shared-db" [service_name d])]
         ++ [(set_ingress, IngressHandler "ingress" (service_name d)
                             (default 0%Z (ingress_port_override d)));
             (set_peers, BasePeerHandler "peers")]
    ∧ (∀ c : Candidate, c ∈ cs → ∀ h a, db (c.1 h a) = db a)
    ∧ (∀ n, n ∈ (λ c : Candidate, relation_name c.2) <$> cs →
         n = "amqp" ∨ n = "identity-service").
Proof.
  unfold candidates, base_candidates.
  destruct (charm_class d).
  - eexists [_]. split; [done|]. split.
    + intros c Hc h a. by apply list_elem_of_singleton in Hc as ->.
    + intros n Hn. apply list_elem_of_singleton in Hn. by left.
  - eexists [_; _]. split; [done|]. split.
    + intros c Hc h a.
      repeat (apply elem_of_cons in Hc as [->|Hc]); try done. inversion Hc.
    + simpl. intros n Hn.
      repeat (apply elem_of_cons in Hn as [->|Hn]); auto. inversion Hn.
Qed.

(** X5.  Which handler [self.db] is after [get_relation_handlers]: the
    shared-db handler whenever [shared-db] is declared, even if the
    [<service>-db] handler was constructed too, except for a service
    called [shared], whose own database relation takes the name
    [shared-db] first; the [<service>-db] handler if only that relation is
    declared; and unchanged if neither is. *)
Theorem db_attribute_last_assignment (d : CharmDef) (attrs : HandlerAttrs)
    (b : Building) :
  get_relation_handlers d None attrs = Ok b →
  db b.2
  = if bool_decide ("shared-db" ∈ dom (meta_relations d)) then
      if bool_decide (service_name d = "shared")
      then Some (DBHandler "shared-db")
      else Some (SharedDBHandler "shared-db" [service_name d])
    else if bool_decide (service_name d +:+ "-db" ∈ dom (meta_relations d))
    then Some (DBHandler (service_name d +:+ "-db"))
    else db attrs.
Proof.
  intros Hget. apply get_relation_handlers_fold in Hget as ->.
  destruct (candidates_split_db d) as (cs & -> & Hframe & Hnames).
  rewrite !foldl_app.
  rewrite (foldl_try_add_frame d db [_; _]); cycle 1.
  { intros c Hc h a.
    repeat (apply elem_of_cons in Hc as [->|Hc]); try done. inversion Hc. }
  set (b1 := foldl (try_add d) (list_or_nil None, attrs) cs).
  assert (Hdb1 : db b1.2 = db attrs)
    by exact (foldl_try_add_frame d db cs (list_or_nil None, attrs) Hframe).
  assert (Hn1 : ∀ n, n ∈ relation_name <$> b1.1 →
                  n = "amqp" ∨ n = "identity-service").
  { intros n. unfold b1. rewrite foldl_try_add_names. simpl.
    intros [Hin|[Hin _]]; [inversion Hin|by apply Hnames]. }
  clearbody b1. cbn [foldl]. unfold try_add. cbn [fst snd relation_name].
  rewrite (can_add_handler_fresh_eq d (service_name d +:+ "-db")); cycle 1.
  { intros Hin. destruct (Hn1 _ Hin) as [Heq|Heq];
      by apply db_name_neq in Heq. }
  assert (Hs1 : "shared-db" ∉ relation_name <$> b1.1).
  { intros Hin. by destruct (Hn1 _ Hin). }
  case_bool_decide as Hdbdecl.
  - unfold add_handler. cbn [fst snd].
    destruct (decide (service_name d = "shared")) as [Hsh|Hsh].
    + rewrite (bool_decide_eq_true_2 (service_name d = "shared")) by done.
      assert (Hcan : can_add_handler d "shared-db"
                       (b1.1 ++ [DBHandler (service_name d +:+ "-db")]) = false).
      { destruct (can_add_handler _ _ _) eqn:Hcan; [|done].
        apply can_add_handler_fresh in Hcan. exfalso. apply Hcan.
        rewrite fmap_app, elem_of_app. right. simpl.
        apply list_elem_of_singleton. by rewrite Hsh. }
      rewrite Hcan. simpl.
      assert (Hdecl : "shared-db" ∈ dom (meta_relations d))
        by (by rewrite Hsh in Hdbdecl).
      rewrite (bool_decide_eq_true_2 _ Hdecl). by rewrite Hsh.
    + rewrite (bool_decide_eq_false_2 (service_name d = "shared")) by done.
      rewrite (can_add_handler_fresh_eq d "shared-db"); cycle 1.
      { rewrite fmap_app, elem_of_app. simpl. intros [Hin|Hin]; [done|].
        apply list_elem_of_singleton in Hin. symmetry in Hin.
        by apply db_name_shared in Hin. }
      by case_bool_decide.
  - rewrite (can_add_handler_fresh_eq d "shared-db") by done.
    case_bool_decide; [|done]. simpl.
    by destruct (bool_decide (service_name d = "shared")) eqn:Hsh;
      [apply bool_decide_eq_true_1 in Hsh; rewrite Hsh in Hdbdecl|].
Qed.

(** ** The charm object and the pass *)

Lemma set_default_lookup key v st k :
  set_default key v st !! k
  = match st !! k with
    | Some b => Some b
    | None => if bool_decide (k = key) then Some v else None
    end.
Proof.
  unfold set_default. destruct (st !! key) eqn:Hkey.
  - destruct (st !! k) eqn:Hk; [done|]. case_bool_decide; [|done]. congruence.
  - case_bool_decide as Heq.
    + subst k. rewrite Hkey. apply lookup_insert_eq.
    + rewrite lookup_insert_ne by done. by destruct (st !! k).
Qed.

Lemma set_default_idemp key v st k :
  is_Some (st !! key) → set_default key v st !! k = st !! k.
Proof.
  intros [b Hb]. rewrite set_default_lookup.
  destruct (st !! k) eqn:Hk; [done|]. case_bool_decide; [|done]. congruence.
Qed.

Section PassFacts.
Context `{Collab : Collaborators}.
Variable nonleader_write : option exn.

Lemma init_state d stored status w leader pd c :
  __init__ d stored status w leader pd = Ok c →
  _state c
  = match charm_class d with
    | OSBaseOperatorCharm => set_default "bootstrapped" false stored
    | OSBaseOperatorAPICharm =>
        set_default "db_ready" false (set_default "bootstrapped" false stored)
    end
  ∧ get_relation_handlers d None no_attrs
    = Ok (relation_handlers c, handler_attrs c).
Proof.
  unfold __init__.
  destruct (get_relation_handlers d None no_attrs) as [[hs a]|e]; simpl; [|done].
  by intros [= <-].
Qed.

(** X7.  [__init__] never overwrites what is stored: every stored key keeps
    its value, the keys it adds ([bootstrapped], and [db_ready] for the API
    class) start as false, and building the charm again from the state it
    left gives the same stored state and the same relation handlers. *)
Theorem init_keeps_stored_state (d : CharmDef) (stored : gmap string bool)
    (status : Status) (w : World) (leader : bool) (pd : gmap string string)
    (c : Charm) :
  __init__ d stored status w leader pd = Ok c →
  (∀ k v, stored !! k = Some v → _state c !! k = Some v)
  ∧ (∀ k, stored !! k = None →
       _state c !! k
       = if bool_decide (k = "bootstrapped"
                         ∨ (k = "db_ready"
                            ∧ charm_class d = OSBaseOperatorAPICharm))
         then Some false else None)
  ∧ (∀ status' w' leader' pd',
       ∃ c', __init__ d (_state c) status' w' leader' pd' = Ok c'
             ∧ _state c' = _state c
             ∧ relation_handlers c' = relation_handlers c).
Proof.
  intros Hinit. destruct (init_state _ _ _ _ _ _ _ Hinit) as [Hst Hget].
  split; [|split].
  - intros k v Hk. rewrite Hst.
    destruct (charm_class d); rewrite !set_default_lookup, ?Hk; done.
  - intros k Hk. rewrite Hst.
    destruct (charm_class d); rewrite !set_default_lookup, ?Hk.
    + repeat case_bool_decide; naive_solver.
    + repeat case_bool_decide; naive_solver.
  - intros status' w' leader' pd'. unfold __init__. rewrite Hget. simpl.
    eexists. split; [done|]. simpl. split; [|done].
    apply map_eq. intros k.
    assert (Hb : is_Some (_state c !! "bootstrapped")).
    { rewrite Hst. destruct (charm_class d); rewrite !set_default_lookup;
        destruct (stored !! "bootstrapped"); simpl; eauto. }
    destruct (charm_class d) eqn:Hclass.
    + by apply set_default_idemp.
    + rewrite set_default_idemp.
      * by apply set_default_idemp.
      * rewrite set_default_idemp by done. rewrite Hst.
        rewrite set_default_lookup.
        destruct (set_default "bootstrapped" false stored !! "db_ready");
          simpl; eauto.
Qed.

(** X8.  A pass leaves alone everything but the pebble handlers, the world
    (through the hook), the unit status and the [bootstrapped] entry of the
    stored state: the declaration of the charm, the relation handlers and
    their attributes, leadership, the peer data, the number of pebble
    handlers and every other stored key are as before. *)
Theorem configure_charm_frame (c c' : Charm) (r : option exn) (t : list Event) :
  configure_charm c = (r, c', t) →
  charm_def c' = charm_def c
  ∧ relation_handlers c' = relation_handlers c
  ∧ handler_attrs c' = handler_attrs c
  ∧ is_leader c' = is_leader c
  ∧ peer_app_data c' = peer_app_data c
  ∧ length (pebble_handlers c') = length (pebble_handlers c)
  ∧ (∀ k, k ≠ "bootstrapped" → _state c' !! k = _state c !! k).
Proof.
  intros Hcc. pose proof (configure_charm_pass_of c) as Hp. rewrite Hcc in Hp.
  pose proof (init_services_handlers c (pebble_handlers c)) as Hphs.
  inversion Hp as [Hn|phs t1 _ Hi Hs|phs t1 _ Hi Hs Hf|phs t1 _ Hi Hs Hf
                   |phs t1 w e _ Hi Hs Hf Hh|phs t1 w _ Hi Hs Hf Hh]; subst;
    try (rewrite Hi in Hphs; simpl in Hphs; subst phs); simpl;
    rewrite ?length_fmap; repeat split; try done;
    intros k Hk; by rewrite lookup_insert_ne.
Qed.

(** X9.  The only status a pass ever writes is the active status, and it
    writes it only at the end of a pass that returns: then all relation
    handlers were ready, [containers_ready] holds and [bootstrapped] is
    true.  In every other pass the unit status and the stored state are
    left as they were; a unit that is active stays active even when a
    relation handler is no longer ready. *)
Theorem configure_charm_status (c c' : Charm) (r : option exn) (t : list Event) :
  configure_charm c = (r, c', t) →
  (∀ s, ESetStatus s ∈ t →
     s = ActiveStatus ∧ r = None
     ∧ relation_handlers_ready c = true
     ∧ containers_ready c' = true
     ∧ bootstrapped c' = Ok true
     ∧ unit_status c' = ActiveStatus)
  ∧ ((∀ s, ESetStatus s ∉ t) →
       unit_status c' = unit_status c ∧ _state c' = _state c)
  ∧ (unit_status c = ActiveStatus → unit_status c' = ActiveStatus).
Proof.
  intros Hcc. pose proof (configure_charm_pass_of c) as Hp. rewrite Hcc in Hp.
  pose proof (init_services_trace_elem c (pebble_handlers c)) as Hinit.
  inversion Hp as [Hn|phs t1 Hr Hi Hs|phs t1 Hr Hi Hs Hf|phs t1 Hr Hi Hs Hf
                   |phs t1 w e Hr Hi Hs Hf Hh|phs t1 w Hr Hi Hs Hf Hh]; subst;
    try (rewrite Hi in Hinit; simpl in Hinit).
  - split; [|done]. intros s Hel. inversion Hel.
  - split; [|done]. intros s Hel. by destruct (Hinit _ Hel) as (? & ? & _).
  - split; [|done]. intros s Hel. by destruct (Hinit _ Hel) as (? & ? & _).
  - split; [|split; [|done]].
    + intros s Hel. apply elem_of_app in Hel as [Hel|Hel].
      * by destruct (Hinit _ Hel) as (? & ? & _).
      * apply list_elem_of_singleton in Hel as [= ->].
        do 4 (split; [done|]).
        split; [apply bootstrapped_flag, flag_finalize|done].
    + intros Hno. exfalso. apply (Hno ActiveStatus).
      apply elem_of_app. right. by left.
  - split; [|done]. intros s Hel. apply elem_of_app in Hel as [Hel|Hel].
    + by destruct (Hinit _ Hel) as (? & ? & _).
    + by apply list_elem_of_singleton in Hel.
  - split; [|split; [|done]].
    + intros s Hel. apply elem_of_app in Hel as [Hel|Hel].
      * by destruct (Hinit _ Hel) as (? & ? & _).
      * apply elem_of_cons in Hel as [?|Hel]; [done|].
        apply list_elem_of_singleton in Hel as [= ->].
        do 4 (split; [done|]).
        split; [apply bootstrapped_flag, flag_finalize|done].
    + intros Hno. exfalso. apply (Hno ActiveStatus).
      apply elem_of_app. right. right. by left.
Qed.

(** X10.  The order of a pass: first the [init_service] calls, then at most
    one invocation of the hook, then at most one write of the status; the
    status is written only after a hook that returned or with no hook
    invocation at all. *)
Theorem configure_charm_order (c c' : Charm) (r : option exn) (t : list Event) :
  configure_charm c = (r, c', t) →
  ∃ inits tail,
    t = inits ++ tail
    ∧ (∀ e, e ∈ inits → is_init_service e = true)
    ∧ (tail = []
       ∨ tail = [ESetStatus ActiveStatus]
       ∨ (∃ e, tail = [EBootstrap (Some e)] ∧ r = Some e)
       ∨ tail = [EBootstrap None; ESetStatus ActiveStatus]).
Proof.
  intros Hcc. pose proof (configure_charm_pass_of c) as Hp. rewrite Hcc in Hp.
  pose proof (init_services_trace_elem c (pebble_handlers c)) as Hinit.
  assert (Hall : ∀ phs t1, init_services c (pebble_handlers c) = (phs, t1) →
                   ∀ e, e ∈ t1 → is_init_service e = true).
  { intros phs t1 Hi e Hel. rewrite Hi in Hinit.
    by destruct (Hinit _ Hel) as (? & -> & _). }
  inversion Hp as [Hn|phs t1 _ Hi Hs|phs t1 _ Hi Hs Hf|phs t1 _ Hi Hs Hf
                   |phs t1 w e _ Hi Hs Hf Hh|phs t1 w _ Hi Hs Hf Hh]; subst.
  - exists [], []. split; [done|]. split; [|by left].
    intros e Hel. inversion Hel.
  - exists t, []. rewrite app_nil_r. eauto.
  - exists t, []. rewrite app_nil_r. eauto.
  - exists t1, [ESetStatus ActiveStatus]. eauto 6.
  - exists t1, [EBootstrap (Some e)]. split; [done|]. split; [eauto|].
    right; right; left. eauto.
  - exists t1, [EBootstrap None; ESetStatus ActiveStatus]. eauto 7.
Qed.

Lemma step_keeps_flag c s :
  is_Some (flag c) → is_Some (flag (step nonleader_write c s).1).
Proof.
  intros [b Hb]. destruct s as [|c0|d|key value]; simpl.
  - destruct (configure_charm c) as [[r c'] t] eqn:Hcc. simpl.
    pose proof (configure_charm_pass_of c) as Hp. rewrite Hcc in Hp.
    inversion Hp; subst; unfold flag; simpl; rewrite ?lookup_insert_eq; eauto.
  - unfold flag in *. simpl. eauto.
  - destruct (__init__ d _ _ _ _ _) as [c'|e] eqn:Hinit; simpl; [|by eauto].
    exists b. by eapply init_flag_kept.
  - pose proof (leader_set_state nonleader_write c key value) as Hst.
    destruct (leader_set nonleader_write c key value) as [r c']. simpl in *.
    unfold flag. rewrite Hst. eauto.
Qed.

Lemma run_keeps_flag c steps :
  is_Some (flag c) → is_Some (flag (run nonleader_write c steps).1).
Proof.
  revert c. induction steps as [|s steps IH]; intros c Hc; simpl; [done|].
  pose proof (step_keeps_flag c s Hc) as Hs.
  destruct (step nonleader_write c s) as [c1 t1].
  specialize (IH c1 Hs).
  by destruct (run nonleader_write c1 steps) as [c2 t2].
Qed.

(** X11.  What [configure_charm] raises.  An exception out of a pass is
    either the one the bootstrap hook raised, with [bootstrapped] false, or
    the [AttributeError] for a stored state without [bootstrapped].  The
    second never happens to a charm built by [__init__], whatever calls,
    outside changes, restarts and [leader_set] calls came before. *)
Theorem configure_charm_raises_only_hook_errors :
  (∀ c c' t e,
     configure_charm c = (Some e, c', t) →
     (flag c = Some false ∧ (_do_bootstrap (world c)).2 = Some e)
     ∨ (flag c = None ∧ e = AttributeError "bootstrapped"))
  ∧ (∀ d stored status w leader pd c0 steps c' t e,
       __init__ d stored status w leader pd = Ok c0 →
       configure_charm (run nonleader_write c0 steps).1 = (Some e, c', t) →
       flag (run nonleader_write c0 steps).1 = Some false
       ∧ (_do_bootstrap (world (run nonleader_write c0 steps).1)).2 = Some e).
Proof.
  assert (Hone : ∀ c c' t e,
            configure_charm c = (Some e, c', t) →
            (flag c = Some false ∧ (_do_bootstrap (world c)).2 = Some e)
            ∨ (flag c = None ∧ e = AttributeError "bootstrapped")).
  { intros c c' t e Hcc.
    pose proof (configure_charm_pass_of c) as Hp. rewrite Hcc in Hp.
    inversion Hp as [Hn|phs t1 _ Hi Hs|phs t1 _ Hi Hs Hf|phs t1 _ Hi Hs Hf
                     |phs t1 w e' _ Hi Hs Hf Hh|phs t1 w _ Hi Hs Hf Hh]; subst.
    - by right.
    - left. by rewrite Hh. }
  split; [exact Hone|].
  intros d stored status w leader pd c0 steps c' t e Hinit Hcc.
  assert (H0 : is_Some (flag c0)).
  { destruct (stored !! "bootstrapped") as [b|] eqn:Hst.
    - exists b. by eapply init_flag_kept.
    - exists false. by eapply init_flag_fresh. }
  pose proof (run_keeps_flag c0 steps H0) as [b Hb].
  destruct (Hone _ _ _ _ Hcc) as [?|[Hnone _]]; [done|]. congruence.
Qed.

(** X12.  The context of a pass is built from the empty context by adding,
    in the order of [relation_handlers], exactly the handlers that are
    declared in the metadata and ready, and then the configuration
    contexts, which therefore come last; a handler that is not ready
    contributes nothing, so the context is the same without it. *)
Theorem contexts_from_ready_handlers (c : Charm) :
  contexts c
  = add_config_contexts (charm_def c) (config_contexts (charm_def c))
      (foldl (λ ra h, add_relation_handler (world c) h ra)
         (OPSCharmContexts (charm_def c))
         (filter (λ h, relation_name h ∈ dom (meta_relations (charm_def c))
                       ∧ ready (world c) h = true)
            (relation_handlers c)))
  ∧ contexts (with_relation_handlers
                (filter (λ h, ready (world c) h = true) (relation_handlers c)) c)
    = contexts c.
Proof.
  unfold contexts. simpl. rewrite !add_ready_handlers_fold. split; [done|].
  rewrite list_filter_filter. do 2 f_equal.
  apply list_filter_iff. naive_solver.
Qed.

(** X13.  A charm built by [__init__] has exactly one pebble handler, so a
    pass calls [init_service] at most once. *)
Theorem one_pebble_handler (d : CharmDef) (stored : gmap string bool)
    (status : Status) (w : World) (leader : bool) (pd : gmap string string)
    (c : Charm) :
  __init__ d stored status w leader pd = Ok c →
  pebble_handlers c = get_pebble_handlers d
  ∧ length (pebble_handlers c) = 1%nat
  ∧ (length (init_service_calls (configure_charm c).2) ≤ 1)%nat.
Proof.
  unfold __init__.
  destruct (get_relation_handlers d None no_attrs) as [b|e]; simpl; [|done].
  intros [= <-]. simpl.
  assert (Hlen : length (get_pebble_handlers d) = 1%nat)
    by (unfold get_pebble_handlers; by destruct (charm_class d)).
  split; [done|]. split; [done|].
  match goal with |- context [configure_charm ?c0] => set (c := c0) end.
  destruct (configure_charm c) as [[r c'] t] eqn:Hcc. simpl.
  pose proof (configure_charm_pass_of c) as Hp. rewrite Hcc in Hp.
  pose proof (init_service_calls_init_services c (pebble_handlers c)) as Hcalls.
  pose proof (init_services_trace c (pebble_handlers c)) as Htr.
  assert (Hle : ∀ phs t1, init_services c (pebble_handlers c) = (phs, t1) →
                  (length t1 ≤ 1)%nat ∧ init_service_calls t1 = t1).
  { intros phs t1 Hi. rewrite Hi in Htr, Hcalls. simpl in *.
    split; [|done]. rewrite Htr, length_fmap.
    etrans; [apply List.filter_length_le|]. by rewrite Hlen. }
  inversion Hp as [Hn|phs t1 _ Hi Hs|phs t1 _ Hi Hs Hf|phs t1 _ Hi Hs Hf
                   |phs t1 w' e _ Hi Hs Hf Hh|phs t1 w' _ Hi Hs Hf Hh]; subst;
    try destruct (Hle _ _ Hi) as [Hl Hc];
    rewrite ?init_service_calls_app, ?Hc; simpl;
    rewrite ?app_nil_r; simpl; lia.
Qed.

End PassFacts.

(** ** [handler_prefix] *)

Lemma replace_char_length old new s :
  String.length (replace_char old new s) = String.length s.
Proof. induction s as [|a s IH]; simpl; [done|]. by rewrite IH. Qed.

Lemma replace_char_get old new s i :
  String.get i (replace_char old new s)
  = (λ a, if Ascii.eqb a old then new else a) <$> String.get i s.
Proof.
  revert i. induction s as [|a s IH]; intros i; simpl; [done|].
  destruct i as [|i]; [done|]. apply IH.
Qed.

Lemma replace_char_id old new s :
  (∀ i, String.get i s ≠ Some old) → replace_char old new s = s.
Proof.
  induction s as [|a s IH]; intros Hno; simpl; [done|].
  destruct (Ascii.eqb_spec a old) as [->|Hne].
  - by specialize (Hno 0%nat).
  - f_equal. apply IH. intros i. apply (Hno (S i)).
Qed.

(** X14.  [handler_prefix] has the length of the service name and no
    hyphen; it has an underscore where the name has a hyphen and the
    character of the name everywhere else, so it is the name itself when
    that has no hyphen, and applying the replacement again changes
    nothing. *)
Theorem handler_prefix_has_no_hyphen (d : CharmDef) :
  String.length (handler_prefix d) = String.length (service_name d)
  ∧ (∀ i, String.get i (handler_prefix d) ≠ Some "-"%char)
  ∧ (∀ i, String.get i (service_name d) = Some "-"%char →
          String.get i (handler_prefix d) = Some "_"%char)
  ∧ (∀ i a, String.get i (service_name d) = Some a → a ≠ "-"%char →
            String.get i (handler_prefix d) = Some a)
  ∧ ((∀ i, String.get i (service_name d) ≠ Some "-"%char) →
       handler_prefix d = service_name d)
  ∧ replace_char "-" "_" (handler_prefix d) = handler_prefix d.
Proof.
  unfold handler_prefix.
  assert (Hno : ∀ i, String.get i (replace_char "-" "_" (service_name d))
                     ≠ Some "-"%char).
  { intros i. rewrite replace_char_get.
    destruct (String.get i (service_name d)) as [a|]; simpl; [|done].
    destruct (Ascii.eqb_spec a "-"); [done|]. congruence. }
  split; [apply replace_char_length|]. split; [done|]. split; [|split; [|split]].
  - intros i Hi. by rewrite replace_char_get, Hi.
  - intros i a Hi Ha. rewrite replace_char_get, Hi. simpl.
    by destruct (Ascii.eqb_spec a "-").
  - apply replace_char_id.
  - by apply replace_char_id.
Qed.

(** ** The shared-db requirer *)

Section RequirerFacts.
Import SharedDB.
Variable json_dumps : list string → string.

Lemma init_observers relation_name databases st :
  __init__ relation_name databases st
  = (Ok (new_instance relation_name databases,
         [(RelationJoined, VBoundMethod JoinedSecond);
          (RelationChanged, VBoundMethod Changed);
          (RelationDeparted, VBoundMethod Changed);
          (RelationBroken, VBoundMethod Broken)]), st).
Proof. by vm_compute. Qed.

Lemma dispatch_built relation_name databases ev st :
  dispatch json_dumps (new_instance relation_name databases)
    [(RelationJoined, VBoundMethod JoinedSecond);
     (RelationChanged, VBoundMethod Changed);
     (RelationDeparted, VBoundMethod Changed);
     (RelationBroken, VBoundMethod Broken)] ev st
  = match ev with
    | RelationJoined =>
        (Raise (AttributeError "username"), with_emitted Connected st)
    | RelationChanged | RelationDeparted =>
        (Raise (AttributeError "password"), st)
    | RelationBroken => (Ok tt, with_emitted GoneAway st)
    end.
Proof. destruct ev; by vm_compute. Qed.

(** X15.  Whatever sequence of relation events a requirer built by
    [__init__] receives: each join raises [AttributeError] after emitting
    [connected], each change or departure raises [AttributeError], each
    broken relation emits [goneaway] and returns; [ready] is never emitted,
    no handler but the second [joined], [changed] and [broken] is ever
    observed, and the relation data and leadership are never touched. *)
Theorem requirer_event_sequences (relation_name : string)
    (databases : list string) (evs : list RelationEvent) (st : St) :
  match __init__ relation_name databases st with
  | (Ok (self, observers), st0) =>
      st0 = st
      ∧ (∀ o, o ∈ observers → o.2 ≠ VBoundMethod JoinedFirst)
      ∧ (deliver json_dumps self observers evs st).1
        = (λ ev, match ev with
                 | RelationJoined => Raise (AttributeError "username")
                 | RelationChanged | RelationDeparted =>
                     Raise (AttributeError "password")
                 | RelationBroken => Ok tt
                 end) <$> evs
      ∧ emitted (deliver json_dumps self observers evs st).2
        = emitted st
          ++ omap (λ ev, match ev with
                         | RelationJoined => Some Connected
                         | RelationBroken => Some GoneAway
                         | _ => None
                         end) evs
      ∧ Ready ∉ omap (λ ev, match ev with
                            | RelationJoined => Some Connected
                            | RelationBroken => Some GoneAway
                            | _ => None
                            end) evs
      ∧ app_data (deliver json_dumps self observers evs st).2 = app_data st
      ∧ unit_is_leader (deliver json_dumps self observers evs st).2
        = unit_is_leader st
  | (Raise _, _) => False
  end.
Proof.
  rewrite init_observers. split; [done|]. split.
  { intros o Ho.
    repeat (apply elem_of_cons in Ho as [->|Ho]); try done. inversion Ho. }
  assert (Hready : Ready ∉ omap (λ ev, match ev with
                                       | RelationJoined => Some Connected
                                       | RelationBroken => Some GoneAway
                                       | _ => None
                                       end) evs).
  { rewrite list_elem_of_omap. intros (ev & _ & Hev). by destruct ev. }
  revert st. induction evs as [|ev evs IH]; intros st.
  - simpl. by rewrite app_nil_r.
  - cbn [deliver]. rewrite dispatch_built.
    assert (Hready' : Ready ∉ omap (λ ev, match ev with
                                          | RelationJoined => Some Connected
                                          | RelationBroken => Some GoneAway
                                          | _ => None
                                          end) evs).
    { rewrite list_elem_of_omap. intros (ev' & _ & Hev). by destruct ev'. }
    destruct ev;
      match goal with
      | |- context [deliver _ _ _ evs ?s] =>
          destruct (IH Hready' s) as (Hr & He & _ & Ha & Hl);
          destruct (deliver json_dumps _ _ evs s) as [rs st2]
      end; simpl in *; subst rs; rewrite He, Ha, Hl;
      rewrite <- ?(assoc_L (++)); done.
Qed.

(** X16.  [request_access] called with its one argument on the leader
    writes the [databases] key of the relation data, and nothing else: the
    other keys and the emitted events are as before, and a second call
    changes nothing more.  Without a relation the call raises
    [AttributeError] and with any other number of arguments [TypeError];
    both leave the state as it was. *)
Theorem request_access_writes_databases (self : Self) (dbs : list string)
    (st : St) :
  unit_is_leader st = true →
  (app_data st = None →
     call json_dumps recursion_limit RequestAccess self [VStrList dbs] st
     = (Raise (AttributeError "data"), st))
  ∧ (∀ d, app_data st = Some d →
       ∃ st',
         call json_dumps recursion_limit RequestAccess self [VStrList dbs] st
         = (Ok tt, st')
         ∧ app_data st' = Some (<["databases" := json_dumps dbs]> d)
         ∧ (∀ d', app_data st' = Some d' →
              d' !! "databases" = Some (json_dumps dbs)
              ∧ ∀ k, k ≠ "databases" → d' !! k = d !! k)
         ∧ emitted st' = emitted st
         ∧ call json_dumps recursion_limit RequestAccess self [VStrList dbs] st'
           = (Ok tt, st'))
  ∧ (∀ args, length args ≠ 1%nat →
       call json_dumps recursion_limit RequestAccess self args st
       = (Raise (TypeError "wrong number of positional arguments"), st)).
Proof.
  intros Hlead.
  assert (Hcall : ∀ s,
    call json_dumps recursion_limit RequestAccess self [VStrList dbs] s
    = request_access json_dumps self (VStrList dbs) s) by done.
  split; [|split].
  - intros Hnone. rewrite Hcall. unfold request_access, write_app_data.
    by rewrite Hlead, Hnone.
  - intros d Hd. rewrite Hcall. unfold request_access, write_app_data.
    rewrite Hlead, Hd. eexists. split; [done|].
    split; [done|]. split; [|split; [done|]].
    + intros d' [= <-]. split; [apply lookup_insert_eq|].
      intros k Hk. by rewrite lookup_insert_ne.
    + rewrite Hcall. unfold request_access, write_app_data. simpl.
      rewrite Hlead. unfold with_app_data. simpl.
      by rewrite insert_insert_eq.
  - intros args Hlen. unfold recursion_limit. cbn [call].
    rewrite (proj2 (Nat.eqb_neq _ _)) by done. done.
Qed.

End RequirerFacts.

(** ** The URLs of an API service *)


(** ** The properties above on concrete charms *)

Lemma relation_handlers_unique_witness :
  ∃ b, get_relation_handlers Sample.keystone None no_attrs = Ok b
       ∧ NoDup (relation_name <$> b.1).
Proof.
  destruct (get_relation_handlers Sample.keystone None no_attrs) as [b|e] eqn:Hget;
    [|by vm_compute in Hget].
  exists b. split; [done|].
  apply (relation_handlers_unique Sample.keystone None no_attrs b);
    [apply NoDup_nil_2|exact Hget].
Defined.

Lemma relation_handlers_are_declared_candidates_witness :
  ∃ b, get_relation_handlers Sample.keystone None no_attrs = Ok b
       ∧ "ingress" ∈ relation_name <$> b.1
       ∧ "amqp" ∉ relation_name <$> b.1.
Proof.
  destruct (get_relation_handlers Sample.keystone None no_attrs) as [b|e] eqn:Hget;
    [|by vm_compute in Hget].
  exists b. split; [done|]. split.
  - apply (relation_handlers_are_declared_candidates
             Sample.keystone no_attrs b "ingress" Hget).
    split.
    + do 4 right. by left.
    + eapply bool_decide_eq_true_1. vm_compute. reflexivity.
  - intros Hin.
    apply (relation_handlers_are_declared_candidates
             Sample.keystone no_attrs b "amqp" Hget) in Hin as [_ Hdecl].
    revert Hdecl. eapply bool_decide_eq_false_1. vm_compute. reflexivity.
Defined.

Lemma api_handlers_prepend_identity_witness :
  ∃ b b',
    get_relation_handlers Sample.keystone None no_attrs = Ok b
    ∧ base_get_relation_handlers Sample.keystone None no_attrs = Ok b'
    ∧ b.1 = IdentityServiceRequiresHandler "identity-service" [] "RegionOne"
            :: b'.1.
Proof.
  destruct (get_relation_handlers Sample.keystone None no_attrs) as [b|e] eqn:Hget;
    [|by vm_compute in Hget].
  destruct (api_handlers_prepend_identity Sample.keystone no_attrs b eq_refl Hget)
    as (b' & Hbase & Heq).
  exists b, b'. split; [done|]. split; [done|]. rewrite Heq.
  reflexivity.
Defined.

Lemma db_attribute_last_assignment_witness :
  ∃ b, get_relation_handlers Sample.keystone None no_attrs = Ok b
       ∧ db b.2 = Some (SharedDBHandler "shared-db" ["keystone"])
       ∧ DBHandler "keystone-db" ∈ b.1.
Proof.
  destruct (get_relation_handlers Sample.keystone None no_attrs) as [b|e] eqn:Hget;
    [|by vm_compute in Hget].
  exists b. split; [done|]. split.
  - rewrite (db_attribute_last_assignment Sample.keystone no_attrs b Hget).
    vm_compute. reflexivity.
  - vm_compute in Hget. injection Hget as <-. simpl.
    right. by left.
Defined.

Lemma leader_data_needs_peers_relation_witness :
  ∃ c, __init__ (Collab := Sample.collab) Sample.glance ∅ WaitingStatus
         (Sample.a_world [] false) false ∅ = Ok c
       ∧ leader_get c "password" = Ok None.
Proof.
  destruct (__init__ (Collab := Sample.collab) Sample.glance ∅ WaitingStatus
              (Sample.a_world [] false) false ∅) as [c|e] eqn:Hinit;
    [|by vm_compute in Hinit].
  exists c. split; [done|].
  pose proof (leader_data_needs_peers_relation (Collab := Sample.collab)
                None Sample.glance ∅
                WaitingStatus (Sample.a_world [] false) false ∅ c
                "password" "s3cret" Hinit) as H.
  rewrite bool_decide_eq_true_2 in H
    by (eapply bool_decide_eq_true_1; vm_compute; reflexivity).
  apply H.
Defined.

Lemma init_keeps_stored_state_witness :
  ∃ c, __init__ (Collab := Sample.collab) Sample.keystone
         {[ "bootstrapped" := true ]} ActiveStatus
         (Sample.a_world [] false) false ∅ = Ok c
       ∧ _state c !! "bootstrapped" = Some true
       ∧ _state c !! "db_ready" = Some false.
Proof.
  destruct (__init__ (Collab := Sample.collab) Sample.keystone
              {[ "bootstrapped" := true ]} ActiveStatus
              (Sample.a_world [] false) false ∅) as [c|e] eqn:Hinit;
    [|by vm_compute in Hinit].
  exists c. split; [done|].
  destruct (init_keeps_stored_state (Collab := Sample.collab)
              Sample.keystone _ _ _ _ _ c Hinit)
    as (Hkeep & Hnew & _).
  split; [by apply Hkeep|]. by rewrite Hnew.
Defined.

Lemma configure_charm_frame_witness :
  relation_handlers (configure_charm Sample.converging).1.2
  = relation_handlers Sample.converging.
Proof.
  destruct (configure_charm Sample.converging) as [[r c'] t] eqn:Hcc.
  apply (configure_charm_frame Sample.converging c' r t Hcc).
Defined.

Lemma configure_charm_status_witness :
  (∀ s, ESetStatus s ∉ (configure_charm Sample.waiting).2)
  ∧ unit_status (configure_charm Sample.waiting).1.2 = WaitingStatus.
Proof.
  destruct (configure_charm Sample.waiting) as [[r c'] t] eqn:Hcc.
  assert (Hno : ∀ s, ESetStatus s ∉ t).
  { vm_compute in Hcc. injection Hcc as <- <- <-. intros s Hin. inversion Hin. }
  split; [exact Hno|].
  destruct (configure_charm_status Sample.waiting c' r t Hcc) as (_ & Hkeep & _).
  destruct (Hkeep Hno) as [Hs _]. simpl. rewrite Hs. reflexivity.
Defined.

Lemma configure_charm_order_witness :
  ∃ inits tail,
    (configure_charm Sample.converging).2 = inits ++ tail
    ∧ (∀ e, e ∈ inits → is_init_service e = true).
Proof.
  destruct (configure_charm Sample.converging) as [[r c'] t] eqn:Hcc.
  destruct (configure_charm_order Sample.converging c' r t Hcc)
    as (inits & tail & Heq & Hall & _).
  by exists inits, tail.
Defined.

Lemma one_pebble_handler_witness :
  ∃ c, __init__ (Collab := Sample.collab) Sample.glance ∅ WaitingStatus
         (Sample.a_world [] false) false ∅ = Ok c
       ∧ length (pebble_handlers c) = 1%nat.
Proof.
  destruct (__init__ (Collab := Sample.collab) Sample.glance ∅ WaitingStatus
              (Sample.a_world [] false) false ∅) as [c|e] eqn:Hinit;
    [|by vm_compute in Hinit].
  exists c. split; [done|].
  apply (one_pebble_handler (Collab := Sample.collab) Sample.glance ∅ WaitingStatus
           (Sample.a_world [] false) false ∅ c Hinit).
Defined.

Lemma request_access_writes_databases_witness :
  SharedDB.unit_is_leader Sample.db_leader = true
  ∧ ∃ st',
      SharedDB.call Sample.json_names SharedDB.recursion_limit
        SharedDB.RequestAccess ∅ [SharedDB.VStrList ["glance"]] Sample.db_leader
      = (Ok tt, st')
      ∧ SharedDB.app_data st'
        = Some {[ "databases" := Sample.json_names ["glance"] ]}.
Proof.
  split; [reflexivity|].
  destruct (request_access_writes_databases Sample.json_names ∅ ["glance"]
              Sample.db_leader eq_refl) as (_ & Hwrite & _).
  destruct (Hwrite ∅ eq_refl) as (st' & Hcall & Hdata & _).
  exists st'. split; [exact Hcall|]. rewrite Hdata. reflexivity.
Defined.
